(** * Slate server: session protocol engine

    A shallow embedding of the token service
    ([src/infrastructure/auth/service.py]) and of the WebSocket handler
    ([src/presentation/websocket/handler.py], with the message codec of
    [protocol.py] and the [to_dict] serialisers of the models), followed by
    the properties of the session protocol that the specification states.

    Conventions of the embedding.
    - Python dictionaries and sets are [gmap]s and [gset]s.
    - Values whose Python type is decided at run time (decoded JSON, the
      fields copied from it) are values of [json]; [JNull] is [None].
    - Wall-clock readings ([time.time()]) and random draws
      ([secrets.token_hex(16)]) are arguments supplied by the caller; a
      reading is the rational its double denotes.
    - Exceptions keep the mutations made before they were raised. *)

From stdpp Require Import gmap strings list relations.
From Stdlib Require Import QArith.

#[local] Close Scope Q_scope.
#[local] Open Scope string_scope.
#[local] Open Scope list_scope.
#[local] Open Scope bool_scope.

(** ** Decoded JSON values *)

#[warnings="-register-all"]
Inductive json : Type :=
  | JNull
  | JBool (b : bool)
  | JNum (n : Z)
  | JStr (s : string)
  | JArr (items : list json)
  | JObj (fields : list (string * json)).

(** Python truth value of a decoded value: [None], [False], [0], the empty
    string, the empty list and the empty dict are false. *)
Definition truthy (v : json) : bool :=
  match v with
  | JNull => false
  | JBool b => b
  | JNum n => negb (n =? 0)%Z
  | JStr s => negb (String.eqb s "")
  | JArr items => match items with [] => false | _ => true end
  | JObj fields => match fields with [] => false | _ => true end
  end.

(** [a or b] *)
Definition py_or (a b : json) : json := if truthy a then a else b.

(** [d.get(key)] on the items of a dict; [None] when the key is absent. *)
Fixpoint dict_lookup (key : string) (fields : list (string * json)) : option json :=
  match fields with
  | [] => None
  | (k, v) :: rest => if String.eqb k key then Some v else dict_lookup key rest
  end.

(** [str | None] seen as a run-time value. *)
Definition of_opt_str (o : option string) : json :=
  match o with Some s => JStr s | None => JNull end.

(** ** Token service *)

Module Auth.

(** *** Double-precision arithmetic

    [time.time()] returns a double and [time.time() + ttl_seconds] is
    computed in doubles: the integer is first converted to a double, then
    the two are added, each step rounding to the nearest double, ties to
    the even significand. A finite double is represented by the rational
    it denotes; the sign of zero is not represented. *)
Inductive double : Type :=
  | Fnum (q : Q)
  | Finf (negative : bool).

(** The integer part of the base-2 logarithm of [n / d], for [n, d > 0]. *)
Definition floor_log2 (n d : Z) : Z :=
  let g := (Z.log2 n - Z.log2 d)%Z in
  if (if (0 <=? g)%Z then (d * 2 ^ g <=? n)%Z else (d <=? n * 2 ^ (- g))%Z)
  then g else (g - 1)%Z.

(** [a / b] rounded to the nearest integer, ties to even, for [b > 0]. *)
Definition round_half_even (a b : Z) : Z :=
  let f := (a / b)%Z in
  match (2 * (a mod b) ?= b)%Z with
  | Lt => f
  | Gt => (f + 1)%Z
  | Eq => if Z.even f then f else (f + 1)%Z
  end.

(** The double nearest to a rational: 53 significant bits, the exponent
    of the last bit no lower than -1074 (subnormals), infinite from
    [2^1024] on. *)
Definition round_double (q : Q) : double :=
  let n := Qnum q in
  let d := Zpos (Qden q) in
  if (n =? 0)%Z then Fnum 0%Q else
  let e := Z.max (floor_log2 (Z.abs n) d - 52) (-1074) in
  let m := if (0 <=? e)%Z then round_half_even n (d * 2 ^ e)
           else round_half_even (n * 2 ^ (- e)) d in
  if (2 ^ 1024 <=? Z.abs m * 2 ^ e)%Z
  then Finf (n <? 0)%Z
  else Fnum (if (0 <=? e)%Z then inject_Z (m * 2 ^ e)
             else Qred (Qmake m (Z.to_pos (2 ^ (- e))))).

(** The exceptions the token service lets through. *)
Inductive raised : Type :=
  | OverflowError.

(** Conversion of a Python [int] to a double: [OverflowError] ("int too
    large to convert to float") when the rounded value is out of range. *)
Definition float_of_int (n : Z) : raised + Q :=
  match round_double (inject_Z n) with
  | Fnum q => inr q
  | Finf _ => inl OverflowError
  end.

(** [x + n] for a double [x] and an [int] [n]. The addition itself does
    not raise: out of range it gives an infinity. *)
Definition float_add_int (x : Q) (n : Z) : raised + double :=
  match float_of_int n with
  | inl e => inl e
  | inr y => inr (round_double (Qred (Qplus x y)))
  end.

(** [@dataclass QRToken] *)
Record QRToken : Type := mkQRToken {
  token : string;
  expires_at : double;
  used : bool
}.

(** The fields of [AuthService]; [token_store] is the content of the file
    at [_token_store_path], as last written by [_save_tokens]. *)
Record AuthService : Type := mkAuthService {
  _tokens : gset string;
  _qr_tokens : gmap string QRToken;
  _current_qr_token : option string;
  token_store : gset string
}.

Definition DEFAULT_QR_TTL_SECONDS : Z := 60.

(** [__init__] followed by [_load_tokens]: [stored] is the token list read
    from the file (empty when the file is missing or unreadable). *)
Definition init (stored : gset string) : AuthService :=
  {| _tokens := stored; _qr_tokens := ∅; _current_qr_token := None;
     token_store := stored |}.

Definition _save_tokens (s : AuthService) : AuthService :=
  {| _tokens := _tokens s; _qr_tokens := _qr_tokens s;
     _current_qr_token := _current_qr_token s;
     token_store := _tokens s |}.

Definition set_tokens (ts : gset string) (s : AuthService) : AuthService :=
  {| _tokens := ts; _qr_tokens := _qr_tokens s;
     _current_qr_token := _current_qr_token s;
     token_store := token_store s |}.

Definition set_qr (m : gmap string QRToken) (cur : option string)
    (s : AuthService) : AuthService :=
  {| _tokens := _tokens s; _qr_tokens := m; _current_qr_token := cur;
     token_store := token_store s |}.

(** [issue_token]; [fresh] is the value drawn by [secrets.token_hex(16)]. *)
Definition issue_token (fresh : string) (s : AuthService) : string * AuthService :=
  let s1 := set_tokens ({[fresh]} ∪ _tokens s) s in
  (fresh, _save_tokens s1).

(** [validate_token] *)
Definition validate_token (tok : option string) (s : AuthService)
    : bool * AuthService :=
  match tok with
  | None => (false, s)
  | Some t => (bool_decide (t ∈ _tokens s), s)
  end.

(** [revoke_token] *)
Definition revoke_token (t : string) (s : AuthService) : bool * AuthService :=
  if bool_decide (t ∈ _tokens s)
  then (true, _save_tokens (set_tokens (_tokens s ∖ {[t]}) s))
  else (false, s).

(** [x > y] for a finite double [x] and a double [y]. *)
Definition float_gt (x : Q) (y : double) : bool :=
  match y with
  | Fnum e => negb (Qle_bool x e)
  | Finf negative => negative
  end.

(** [now > data.expires_at] *)
Definition past (now : Q) (q : QRToken) : bool :=
  float_gt now (expires_at q).

(** [issue_qr_token]; [ttl_seconds = None] is the default argument. The
    test [if self._current_qr_token] is a truth test: an empty string
    counts as no current token. The expiry is the double-precision sum
    [time.time() + ttl_seconds]; when the conversion of [ttl_seconds]
    raises, the previous token has already been popped and the token
    drawn is neither stored nor returned. *)
Definition issue_qr_token (now : Q) (fresh : string) (ttl_seconds : option Z)
    (s : AuthService) : (raised + string) * AuthService :=
  let ttl := match ttl_seconds with Some n => n | None => DEFAULT_QR_TTL_SECONDS end in
  let kept :=
    match _current_qr_token s with
    | Some cur => if String.eqb cur "" then _qr_tokens s else delete cur (_qr_tokens s)
    | None => _qr_tokens s
    end in
  match float_add_int now ttl with
  | inl e => (inl e, set_qr kept (_current_qr_token s) s)
  | inr sum =>
      let entry := {| token := fresh; expires_at := sum; used := false |} in
      (inr fresh, set_qr (<[fresh := entry]> kept) (Some fresh) s)
  end.

(** The three rejections of [exchange_qr_token]. The source returns [None]
    in each of them and tells them apart only by the warning it logs
    ("token not found", "already used", "expired"). *)
Inductive rejection : Type := NotFound | AlreadyUsed | Expired.

Inductive exchange_result : Type :=
  | Session (session_token : string)
  | Rejected (why : rejection).

(** The value [exchange_qr_token] returns to its caller. *)
Definition returned (r : exchange_result) : option string :=
  match r with Session t => Some t | Rejected _ => None end.

(** [qr_data.used = True] *)
Definition mark_used (q : QRToken) : QRToken :=
  {| token := token q; expires_at := expires_at q; used := true |}.

(** [exchange_qr_token]; [fresh] is the draw of the chained [issue_token].
    [qr_data] is the object stored in the map, so marking it used updates
    the entry, which the next statement pops. *)
Definition exchange_qr_token (now : Q) (fresh : string) (qr_token : string)
    (s : AuthService) : exchange_result * AuthService :=
  match _qr_tokens s !! qr_token with
  | None => (Rejected NotFound, s)
  | Some qr_data =>
      if used qr_data then (Rejected AlreadyUsed, s)
      else if past now qr_data
      then (Rejected Expired,
            set_qr (delete qr_token (_qr_tokens s)) (_current_qr_token s) s)
      else
        let marked := <[qr_token := mark_used qr_data]> (_qr_tokens s) in
        let s1 := set_qr (delete qr_token marked) (_current_qr_token s) s in
        let '(session_token, s2) := issue_token fresh s1 in
        (Session session_token, s2)
  end.

(** [cleanup_expired_qr_tokens] *)
Definition cleanup_expired_qr_tokens (now : Q) (s : AuthService) : nat * AuthService :=
  let expired := filter (λ kv, past now kv.2 = true) (map_to_list (_qr_tokens s)) in
  (length expired,
   set_qr (foldl (λ m kv, delete kv.1 m) (_qr_tokens s) expired)
          (_current_qr_token s) s).

(** What [secrets.token_hex(16)] can return: 32 hexadecimal digits. Only
    the length matters below. *)
Definition token_hex_16 (t : string) : Prop := String.length t = 32%nat.

(** The calls of the public interface, with the clock readings and draws
    they consume. *)
Inductive call : Type :=
  | IssueToken (fresh : string)
  | ValidateToken (tok : option string)
  | RevokeToken (t : string)
  | IssueQrToken (now : Q) (fresh : string) (ttl_seconds : option Z)
  | ExchangeQrToken (now : Q) (fresh : string) (qr_token : string)
  | CleanupExpiredQrTokens (now : Q).

Definition draws_ok (c : call) : Prop :=
  match c with
  | IssueToken fresh | IssueQrToken _ fresh _ | ExchangeQrToken _ fresh _ =>
      token_hex_16 fresh
  | _ => True
  end.

Definition exec (c : call) (s : AuthService) : AuthService :=
  match c with
  | IssueToken fresh => (issue_token fresh s).2
  | ValidateToken tok => (validate_token tok s).2
  | RevokeToken t => (revoke_token t s).2
  | IssueQrToken now fresh ttl => (issue_qr_token now fresh ttl s).2
  | ExchangeQrToken now fresh qr => (exchange_qr_token now fresh qr s).2
  | CleanupExpiredQrTokens now => (cleanup_expired_qr_tokens now s).2
  end.

(** States of a running service: built by [init] from the token file
    [stored] and driven through the public interface. *)
Inductive reachable_from (stored : gset string) : AuthService → Prop :=
  | reachable_init : reachable_from stored (init stored)
  | reachable_call c s :
      reachable_from stored s → draws_ok c → reachable_from stored (exec c s).

Definition reachable (s : AuthService) : Prop := ∃ stored, reachable_from stored s.

(** An entry of the QR map is the current token, under its own key, and
    not yet used. *)
Definition qr_inv (s : AuthService) : Prop :=
  ∀ t q, _qr_tokens s !! t = Some q →
    _current_qr_token s = Some t ∧ t ≠ "" ∧ token q = t ∧ used q = false.

End Auth.

(** ** Message codec ([protocol.py]) *)

Definition PROTOCOL_VERSION : string := "1.0".

Inductive MessageType : Type :=
  | HELLO | WELCOME
  | AUTH_REQUIRED | AUTH_RESULT
  | BUTTON_PRESSED | GET_BUTTONS | ACTION_RESULT | BUTTONS_LIST | ERROR
  | GET_PROFILES | PROFILES_LIST | SWITCH_PROFILE | PROFILE_SWITCHED
  | PING | PONG
  | SYSTEM_STATS.

(** [MessageType.X.value] *)
Definition value (t : MessageType) : string :=
  match t with
  | HELLO => "HELLO" | WELCOME => "WELCOME"
  | AUTH_REQUIRED => "AUTH_REQUIRED" | AUTH_RESULT => "AUTH_RESULT"
  | BUTTON_PRESSED => "BUTTON_PRESSED" | GET_BUTTONS => "GET_BUTTONS"
  | ACTION_RESULT => "ACTION_RESULT" | BUTTONS_LIST => "BUTTONS_LIST"
  | ERROR => "ERROR"
  | GET_PROFILES => "GET_PROFILES" | PROFILES_LIST => "PROFILES_LIST"
  | SWITCH_PROFILE => "SWITCH_PROFILE" | PROFILE_SWITCHED => "PROFILE_SWITCHED"
  | PING => "PING" | PONG => "PONG"
  | SYSTEM_STATS => "SYSTEM_STATS"
  end.

(** [create_message(msg_type, payload)]; [JNull] is the default [None]. *)
Definition create_message (msg_type : MessageType) (payload : json) : json :=
  JObj [("type", JStr (value msg_type)); ("payload", py_or payload (JObj []))].

(** The [type] entry of an envelope built by [create_message]. *)
Definition type_of (m : json) : option json :=
  match m with JObj fields => dict_lookup "type" fields | _ => None end.

(** ** Domain models ([core/models]) *)

Inductive ActionType : Type :=
  | MEDIA_PLAY_PAUSE | MEDIA_NEXT | MEDIA_PREV | APP_LAUNCH | HOTKEY
  | OPEN_URL | OPEN_FOLDER | VOLUME_UP | VOLUME_DOWN | VOLUME_MUTE
  | SYSTEM_CPU | SYSTEM_RAM | SYSTEM_GPU.

Definition action_value (a : ActionType) : string :=
  match a with
  | MEDIA_PLAY_PAUSE => "MEDIA_PLAY_PAUSE" | MEDIA_NEXT => "MEDIA_NEXT"
  | MEDIA_PREV => "MEDIA_PREV" | APP_LAUNCH => "APP_LAUNCH" | HOTKEY => "HOTKEY"
  | OPEN_URL => "OPEN_URL" | OPEN_FOLDER => "OPEN_FOLDER"
  | VOLUME_UP => "VOLUME_UP" | VOLUME_DOWN => "VOLUME_DOWN"
  | VOLUME_MUTE => "VOLUME_MUTE"
  | SYSTEM_CPU => "SYSTEM_CPU" | SYSTEM_RAM => "SYSTEM_RAM"
  | SYSTEM_GPU => "SYSTEM_GPU"
  end.

Module Button.
Record t : Type := mk {
  id : string;
  label : string;
  icon : string;
  action_type : ActionType;
  action_payload : json;
  background : option string;
  icon_color : option string
}.

Definition to_dict (b : t) : json :=
  JObj ([("id", JStr (id b)); ("label", JStr (label b)); ("icon", JStr (icon b));
         ("actionType", JStr (action_value (action_type b)));
         ("actionPayload", action_payload b)]
        ++ match background b with Some c => [("background", JStr c)] | None => [] end
        ++ match icon_color b with Some c => [("iconColor", JStr c)] | None => [] end).
End Button.

Module Profile.
(** The two dates are kept in the form [to_dict] emits them
    ([isoformat()]). *)
Record t : Type := mk {
  id : string;
  name : string;
  created_at : option string;
  updated_at : option string
}.

Definition to_dict (p : t) : json :=
  JObj ([("id", JStr (id p)); ("name", JStr (name p))]
        ++ match created_at p with Some d => [("createdAt", JStr d)] | None => [] end
        ++ match updated_at p with Some d => [("updatedAt", JStr d)] | None => [] end).
End Profile.

(** [SystemStats] of the monitor; the readings are forwarded as they are. *)
Record SystemStats : Type := mkSystemStats {
  cpu_percent : json;
  ram_percent : json;
  gpu_percent : json
}.

(** ** WebSocket handler ([handler.py]) *)

(** A socket object is known by its identity. *)
Definition WebSocket : Type := nat.

Definition PONG_TIMEOUT_SECONDS : Z := 90.

(** [@dataclass ConnectionInfo] *)
Record ConnectionInfo : Type := mkConnectionInfo {
  websocket : WebSocket;
  client_version : json;
  is_authenticated : bool;
  active_profile_id : json;
  connected_at : Q;
  last_pong : Q
}.

Definition set_client_version (v : json) (i : ConnectionInfo) : ConnectionInfo :=
  {| websocket := websocket i; client_version := v;
     is_authenticated := is_authenticated i;
     active_profile_id := active_profile_id i;
     connected_at := connected_at i; last_pong := last_pong i |}.

Definition set_is_authenticated (b : bool) (i : ConnectionInfo) : ConnectionInfo :=
  {| websocket := websocket i; client_version := client_version i;
     is_authenticated := b;
     active_profile_id := active_profile_id i;
     connected_at := connected_at i; last_pong := last_pong i |}.

Definition set_active_profile_id (p : json) (i : ConnectionInfo) : ConnectionInfo :=
  {| websocket := websocket i; client_version := client_version i;
     is_authenticated := is_authenticated i;
     active_profile_id := p;
     connected_at := connected_at i; last_pong := last_pong i |}.

Definition set_last_pong (t : Q) (i : ConnectionInfo) : ConnectionInfo :=
  {| websocket := websocket i; client_version := client_version i;
     is_authenticated := is_authenticated i;
     active_profile_id := active_profile_id i;
     connected_at := connected_at i; last_pong := t |}.

(** The exceptions the handler can meet. *)
Inductive exn : Type :=
  | JSONDecodeError                 (* json.loads on a malformed frame *)
  | AttributeError                  (* .get on a value that is not a dict *)
  | TypeError                       (* an unhashable token tested against the token set *)
  | KeyError (ws : WebSocket)       (* self._connections[ws] without an entry *)
  | SendError (ws : WebSocket)      (* ws.send_json raised *)
  | AcceptError (ws : WebSocket).   (* ws.accept raised *)

(** What one handler call sees of the world outside the handler: the clock,
    the transport, the token service it was built with and the two stores
    (lookups that find nothing return [None] or the empty list). *)
Record Env : Type := mkEnv {
  now : Q;                                         (* time.time() *)
  send_ok : WebSocket → json → bool;               (* does ws.send_json(m) return? *)
  accept_ok : WebSocket → bool;                    (* does ws.accept() return? *)
  exn_text : exn → string;                         (* str(e) *)
  str_of : json → string;                          (* f"{v}" *)
  auth_service : Auth.AuthService;
  profile_get_all : list Profile.t;                (* SELECT ... ORDER BY created_at *)
  profile_get_by_id : json → option Profile.t;
  button_get_all : json → list Button.t;
  button_get_by_id : json → json → option Button.t;
  execute_action : Button.t → json                 (* ExecuteActionUseCase.execute *)
}.

(** [SQLiteProfileRepository.get_default_profile] *)
Definition profile_get_default_profile (env : Env) : option Profile.t :=
  head (profile_get_all env).

(** The mutable part: the registry [_connections] and, as a record of the
    effects, the frames the sockets have accepted, oldest first. *)
Record State : Type := mkState {
  _connections : gmap WebSocket ConnectionInfo;
  wire : list (WebSocket * json)
}.

(** A computation may raise; the state it reached is kept either way. *)
Definition M (A : Type) : Type := State → (exn + A) * State.

#[global] Instance M_ret : MRet M := λ A (a : A) (s : State), (inr a, s).

#[global] Instance M_bind : MBind M := λ A B (f : A → M B) (c : M A) (s : State),
  match c s with
  | (inl e, s1) => (inl e, s1)
  | (inr a, s1) => f a s1
  end.

Definition raise {A : Type} (e : exn) : M A := λ s, (inl e, s).

(** [try: body except Exception as e: handler e] *)
Definition try_except {A : Type} (body : M A) (handler : exn → M A) : M A := λ s,
  match body s with
  | (inl e, s1) => handler e s1
  | (inr a, s1) => (inr a, s1)
  end.

(** [try: body except Exception: pass] *)
Definition try_pass (body : M unit) : M unit := try_except body (λ _, mret tt).

Definition connections : M (gmap WebSocket ConnectionInfo) :=
  λ s, (inr (_connections s), s).

Definition set_connections (m : gmap WebSocket ConnectionInfo) : M unit :=
  λ s, (inr tt, {| _connections := m; wire := wire s |}).

(** [for x in xs: body x] *)
Fixpoint for_each {X : Type} (xs : list X) (body : X → M unit) : M unit :=
  match xs with
  | [] => mret tt
  | x :: rest => body x ;; for_each rest body
  end.

(** [if cond: body] *)
Definition when (cond : bool) (body : M unit) : M unit :=
  if cond then body else mret tt.

(** [self._connections[ws]] *)
Definition connection (ws : WebSocket) : M ConnectionInfo :=
  m ← connections;
  match m !! ws with
  | Some info => mret info
  | None => raise (KeyError ws)
  end.

(** [self._connections[ws].field = v], written as the update [f] *)
Definition update_connection (ws : WebSocket) (f : ConnectionInfo → ConnectionInfo)
    : M unit :=
  info ← connection ws;
  m ← connections;
  set_connections (<[ws := f info]> m).

(** [d.get(key, default)]; raises on a value that has no [get]. *)
Definition get_default (d : json) (key : string) (default : json) : M json :=
  match d with
  | JObj fields =>
      mret (match dict_lookup key fields with Some v => v | None => default end)
  | _ => raise AttributeError
  end.

Section Handler.

Variable env : Env.

(** [await ws.send_json(message)] *)
Definition send_json (ws : WebSocket) (message : json) : M unit := λ s,
  if send_ok env ws message
  then (inr tt, {| _connections := _connections s; wire := wire s ++ [(ws, message)] |})
  else (inl (SendError ws), s).

(** [self._auth_service.validate_token(token)] on a token taken from a
    decoded payload. A number or a boolean is hashable and equal to no
    stored string; a list or a dict cannot be hashed. *)
Definition auth_validate_token (token : json) : M bool :=
  match token with
  | JNull => mret (Auth.validate_token None (auth_service env)).1
  | JStr t => mret (Auth.validate_token (Some t) (auth_service env)).1
  | JBool _ | JNum _ => mret false
  | JArr _ | JObj _ => raise TypeError
  end.

Definition _send_error (ws : WebSocket) (message : string) : M unit :=
  send_json ws (create_message ERROR (JObj [("message", JStr message)])).

Definition _is_authenticated (ws : WebSocket) : M bool :=
  m ← connections;
  mret (match m !! ws with
        | Some info => is_authenticated info
        | None => false
        end).

Definition buttons_payload (profile_id : json) : json :=
  JObj [("buttons", JArr (map Button.to_dict (button_get_all env profile_id)))].

Definition profiles_payload : json :=
  JObj [("profiles", JArr (map Profile.to_dict (profile_get_all env)))].

Definition _send_buttons_list (ws : WebSocket) : M unit :=
  info ← connection ws;
  let profile_id := active_profile_id info in
  if negb (truthy profile_id)
  then send_json ws (create_message BUTTONS_LIST (JObj [("buttons", JArr [])]))
  else send_json ws (create_message BUTTONS_LIST (buttons_payload profile_id)).

Definition _send_profiles_list (ws : WebSocket) : M unit :=
  send_json ws (create_message PROFILES_LIST profiles_payload).

Definition _handle_hello (ws : WebSocket) (payload : json) : M unit :=
  client_version ← get_default payload "version" (JStr "unknown");
  token ← get_default payload "token" JNull;
  m ← connections;
  when (bool_decide (ws ∈ dom m))
    (update_connection ws (set_client_version client_version)) ;;
  valid ← auth_validate_token token;
  if (valid : bool) then
    update_connection ws (set_is_authenticated true) ;;
    info ← connection ws;
    when (negb (truthy (active_profile_id info)))
      match profile_get_default_profile env with
      | Some default_profile =>
          update_connection ws
            (set_active_profile_id (JStr (Profile.id default_profile)))
      | None => mret tt
      end ;;
    send_json ws (create_message WELCOME (JObj [("version", JStr PROTOCOL_VERSION)])) ;;
    _send_profiles_list ws ;;
    _send_buttons_list ws
  else
    send_json ws (create_message AUTH_REQUIRED JNull).

Definition _handle_pong (ws : WebSocket) : M unit :=
  m ← connections;
  if bool_decide (ws ∈ dom m)
  then update_connection ws (set_last_pong (now env))
  else mret tt.

Definition _handle_button_pressed (ws : WebSocket) (payload : json) : M unit :=
  authenticated ← _is_authenticated ws;
  if negb authenticated then _send_error ws "Not authenticated" else
  button_id ← get_default payload "buttonId" JNull;
  info ← connection ws;
  let profile_id := active_profile_id info in
  if negb (truthy button_id) then _send_error ws "Missing buttonId" else
  if negb (truthy profile_id) then _send_error ws "No active profile" else
  match button_get_by_id env button_id profile_id with
  | None => _send_error ws ("Button not found: " ++ str_of env button_id)
  | Some button =>
      send_json ws (create_message ACTION_RESULT (execute_action env button))
  end.

Definition _handle_get_buttons (ws : WebSocket) : M unit :=
  authenticated ← _is_authenticated ws;
  if negb authenticated then _send_error ws "Not authenticated" else
  _send_buttons_list ws.

Definition _handle_get_profiles (ws : WebSocket) : M unit :=
  authenticated ← _is_authenticated ws;
  if negb authenticated then _send_error ws "Not authenticated" else
  _send_profiles_list ws.

Definition _handle_switch_profile (ws : WebSocket) (payload : json) : M unit :=
  authenticated ← _is_authenticated ws;
  if negb authenticated then _send_error ws "Not authenticated" else
  profile_id ← get_default payload "profileId" JNull;
  if negb (truthy profile_id) then _send_error ws "Missing profileId" else
  match profile_get_by_id env profile_id with
  | None => _send_error ws ("Profile not found: " ++ str_of env profile_id)
  | Some _ =>
      update_connection ws (set_active_profile_id profile_id) ;;
      _send_buttons_list ws ;;
      send_json ws (create_message PROFILE_SWITCHED (JObj [("profileId", profile_id)]))
  end.

(** The [match msg_type] statement: the cases compare [msg_type] with the
    string values of the enumeration, in this order; anything else,
    strings or not, falls to the default case, which only logs. *)
Definition dispatch (ws : WebSocket) (msg_type payload : json) : M unit :=
  match msg_type with
  | JStr t =>
      if String.eqb t (value HELLO) then _handle_hello ws payload
      else if String.eqb t (value BUTTON_PRESSED) then _handle_button_pressed ws payload
      else if String.eqb t (value GET_BUTTONS) then _handle_get_buttons ws
      else if String.eqb t (value GET_PROFILES) then _handle_get_profiles ws
      else if String.eqb t (value SWITCH_PROFILE) then _handle_switch_profile ws payload
      else if String.eqb t (value PONG) then _handle_pong ws
      else mret tt
  | _ => mret tt
  end.

(** [handle_message(websocket, data)]; [data] is the frame as [json.loads]
    decodes it, [None] when it raises [JSONDecodeError]. *)
Definition handle_message (ws : WebSocket) (data : option json) : M unit :=
  try_except
    (message ← match data with Some v => mret v | None => raise JSONDecodeError end;
     msg_type ← get_default message "type" JNull;
     payload ← get_default message "payload" (JObj []);
     dispatch ws msg_type payload)
    (λ e, match e with
          | JSONDecodeError => _send_error ws "Invalid JSON"
          | _ => _send_error ws (exn_text env e)
          end).

(** [connect]: [accept] comes first, so nothing is registered when it
    raises. *)
Definition connect (ws : WebSocket) : M unit :=
  when (negb (accept_ok env ws)) (raise (AcceptError ws)) ;;
  m ← connections;
  set_connections
    (<[ws := {| websocket := ws; client_version := JNull;
                is_authenticated := false; active_profile_id := JNull;
                connected_at := now env; last_pong := now env |}]> m).

Definition disconnect (ws : WebSocket) : M unit :=
  m ← connections;
  if bool_decide (ws ∈ dom m) then set_connections (delete ws m) else mret tt.

(** [_close_connection]; the closing handshake that follows the removal
    sends no JSON frame and its failure is swallowed. *)
Definition _close_connection (ws : WebSocket) (reason : string) : M unit :=
  m ← connections;
  if negb (bool_decide (ws ∈ dom m)) then mret tt else
  set_connections (delete ws m).

(** The loops below run over [list(self._connections.items())], a snapshot
    of the registry. Each [info] of the snapshot is the very object the
    registry holds for [ws]: a field assigned through [info] is assigned
    in the registry entry of [ws], if that entry is still there. *)
Definition items : M (list (WebSocket * ConnectionInfo)) :=
  m ← connections; mret (map_to_list m).

Definition assign_through (ws : WebSocket) (f : ConnectionInfo → ConnectionInfo)
    : M unit :=
  m ← connections; set_connections (alter f ws m).

Definition is_empty : M bool :=
  m ← connections; mret (bool_decide (m = ∅)).

Definition _broadcast_stats (stats : SystemStats) : M unit :=
  empty ← is_empty;
  if (empty : bool) then mret tt else
  let message := create_message SYSTEM_STATS
    (JObj [("cpu", cpu_percent stats); ("ram", ram_percent stats);
           ("gpu", gpu_percent stats)]) in
  snapshot ← items;
  for_each snapshot (λ '(ws, info),
    if is_authenticated info then try_pass (send_json ws message) else mret tt).

Definition _send_ping_to_all : M unit :=
  empty ← is_empty;
  if (empty : bool) then mret tt else
  let message := create_message PING JNull in
  snapshot ← items;
  for_each snapshot.*1 (λ ws,
    try_except (send_json ws message) (λ _, _close_connection ws "Send failed")).

(** [now - info.last_pong > config.PONG_TIMEOUT_SECONDS] *)
Definition stale (info : ConnectionInfo) : bool :=
  negb (Qle_bool (Qminus (now env) (last_pong info)) (inject_Z PONG_TIMEOUT_SECONDS)).

Definition _cleanup_stale_connections : M unit :=
  snapshot ← items;
  for_each snapshot (λ '(ws, info),
    if stale info then _close_connection ws "Heartbeat timeout" else mret tt).

Definition broadcast_buttons_update (profile_id : option string) : M unit :=
  empty ← is_empty;
  if (empty : bool) then mret tt else
  snapshot ← items;
  for_each snapshot (λ '(ws, info),
    if negb (is_authenticated info) then mret tt else
    let target_profile_id := py_or (of_opt_str profile_id) (active_profile_id info) in
    if negb (truthy target_profile_id) then mret tt else
    try_pass (send_json ws (create_message BUTTONS_LIST (buttons_payload target_profile_id)))).

Definition broadcast_profiles_update : M unit :=
  empty ← is_empty;
  if (empty : bool) then mret tt else
  let message := create_message PROFILES_LIST profiles_payload in
  snapshot ← items;
  for_each snapshot (λ '(ws, info),
    if is_authenticated info then try_pass (send_json ws message) else mret tt).

Definition broadcast_profile_switch (profile_id : string) : M unit :=
  empty ← is_empty;
  if (empty : bool) then mret tt else
  match profile_get_by_id env (JStr profile_id) with
  | None => mret tt
  | Some _ =>
      snapshot ← items;
      for_each snapshot (λ '(ws, info),
        if is_authenticated info then
          assign_through ws (set_active_profile_id (JStr profile_id)) ;;
          try_pass
            (send_json ws (create_message PROFILE_SWITCHED
                             (JObj [("profileId", JStr profile_id)])) ;;
             send_json ws (create_message BUTTONS_LIST (buttons_payload (JStr profile_id))))
        else mret tt)
  end.

End Handler.

(** ** The handler as a transition system *)

(** The entry points of the handler: the two called by the socket endpoint
    of [main.py] around [handle_message], the broadcasts called by the HTTP
    routes, and the bodies of the two periodic loops. *)
Inductive op : Type :=
  | Connect (ws : WebSocket)
  | Disconnect (ws : WebSocket)
  | HandleMessage (ws : WebSocket) (data : option json)
  | BroadcastButtonsUpdate (profile_id : option string)
  | BroadcastProfilesUpdate
  | BroadcastProfileSwitch (profile_id : string)
  | BroadcastStats (stats : SystemStats)
  | SendPingToAll
  | CleanupStaleConnections.

Definition run (env : Env) (o : op) : M unit :=
  match o with
  | Connect ws => connect env ws
  | Disconnect ws => disconnect ws
  | HandleMessage ws data => handle_message env ws data
  | BroadcastButtonsUpdate profile_id => broadcast_buttons_update env profile_id
  | BroadcastProfilesUpdate => broadcast_profiles_update env
  | BroadcastProfileSwitch profile_id => broadcast_profile_switch env profile_id
  | BroadcastStats stats => _broadcast_stats env stats
  | SendPingToAll => _send_ping_to_all env
  | CleanupStaleConnections => _cleanup_stale_connections env
  end.

(** The endpoint calls [connect] once, on the socket object the framework
    has just created for it: that socket has no entry yet. *)
Definition admissible (o : op) (s : State) : Prop :=
  match o with
  | Connect ws => ws ∉ dom (_connections s)
  | _ => True
  end.

(** One entry point runs to its end (or to the exception it lets escape) in
    some environment. *)
Definition step (s s' : State) : Prop :=
  ∃ env o, admissible o s ∧ s' = (run env o s).2.

Definition registered (ws : WebSocket) (s : State) : Prop :=
  ws ∈ dom (_connections s).

Definition authenticated (ws : WebSocket) (s : State) : Prop :=
  ∃ info, _connections s !! ws = Some info ∧ is_authenticated info = true.

(** A step after which [ws] still has its entry. *)
Definition step_keeping (ws : WebSocket) (s s' : State) : Prop :=
  step s s' ∧ registered ws s'.

(** The frames of a piece of wire that went to [ws], in order. *)
Definition frames_to (ws : WebSocket) (w : list (WebSocket * json)) : list json :=
  (filter (λ f, f.1 = ws) w).*2.

(** Of the frames [ms] sent in a row under one [try], those the socket gets:
    the first refusal raises and skips the rest. *)
Fixpoint accepted (env : Env) (ws : WebSocket) (ms : list json) : list json :=
  match ms with
  | [] => []
  | m :: rest => if send_ok env ws m then m :: accepted env ws rest else []
  end.

(** The [error] frame of [_send_error]. *)
Definition error_frame (message : string) : json :=
  create_message ERROR (JObj [("message", JStr message)]).

Definition is_error_frame (m : json) : Prop :=
  type_of m = Some (JStr (value ERROR)).

(** The frames of the two pushes. *)
Definition buttons_list_frame (env : Env) (profile_id : json) : json :=
  create_message BUTTONS_LIST (buttons_payload env profile_id).

Definition profile_switched_frame (profile_id : string) : json :=
  create_message PROFILE_SWITCHED (JObj [("profileId", JStr profile_id)]).

(** The shape shared by the push loops, as a function on states: an entry
    selected by [sel] gets [f] assigned through its [info] and is sent the
    frames [msgs]. *)
Definition push_effect (sel : ConnectionInfo → bool)
    (f : ConnectionInfo → ConnectionInfo)
    (msgs : WebSocket → ConnectionInfo → list json)
    (s : State) (entry : WebSocket * ConnectionInfo) : State :=
  if sel entry.2
  then {| _connections := alter f entry.1 (_connections s);
          wire := wire s ++ ((λ m, (entry.1, m)) <$> msgs entry.1 entry.2) |}
  else s.

Definition pushed (sel : ConnectionInfo → bool) (f : ConnectionInfo → ConnectionInfo)
    (i : ConnectionInfo) : ConnectionInfo :=
  if sel i then f i else i.

(** What one authenticated connection is sent by
    [broadcast_profile_switch(profile_id)], and by
    [broadcast_buttons_update(profile_id)] for a given, non-empty id. *)
Definition switch_frames (env : Env) (profile_id : string)
    (ws : WebSocket) (_ : ConnectionInfo) : list json :=
  accepted env ws [profile_switched_frame profile_id;
                   buttons_list_frame env (JStr profile_id)].

Definition update_frames (env : Env) (profile_id : string)
    (ws : WebSocket) (_ : ConnectionInfo) : list json :=
  accepted env ws [buttons_list_frame env (JStr profile_id)].

(** The profile a successful handshake leaves bound: the prior value when
    it is set, otherwise the default profile of the store, if it has one. *)
Definition bound_profile (env : Env) (prior : json) : json :=
  if truthy prior then prior
  else match profile_get_default_profile env with
       | Some default_profile => JStr (Profile.id default_profile)
       | None => prior
       end.

(** The frame [_send_buttons_list] sends to a connection whose active
    profile is [active]. *)
Definition buttons_list_for (env : Env) (active : json) : json :=
  if truthy active then buttons_list_frame env active
  else create_message BUTTONS_LIST (JObj [("buttons", JArr [])]).

(** The requests the handlers answer only to an authenticated connection,
    and all the types [handle_message] has a case for. *)
Definition gated_requests : list MessageType :=
  [BUTTON_PRESSED; GET_BUTTONS; GET_PROFILES; SWITCH_PROFILE].

Definition dispatched_types : list MessageType :=
  [HELLO; BUTTON_PRESSED; GET_BUTTONS; GET_PROFILES; SWITCH_PROFILE; PONG].

(** What reaches a connection that is refused: the "Not authenticated"
    error or, when the socket refuses that frame, the error frame built from
    the exception by [handle_message], if the socket takes it. *)
Definition refusal (env : Env) (ws : WebSocket) : list json :=
  if send_ok env ws (error_frame "Not authenticated")
  then [error_frame "Not authenticated"]
  else accepted env ws [error_frame (exn_text env (SendError ws))].

(** How one entry point may change the registry: no entry appears, and an
    entry that stays keeps a raised [is_authenticated]; when [strict], no
    entry disappears either. *)
Definition keeps (strict : bool) (s s' : State) : Prop :=
  (∀ ws info', _connections s' !! ws = Some info' →
     ∃ info, _connections s !! ws = Some info ∧
             (is_authenticated info = true → is_authenticated info' = true)) ∧
  (strict = true → ∀ ws, registered ws s → registered ws s').

Definition keeping (strict : bool) {A : Type} (c : M A) : Prop :=
  ∀ s, keeps strict s (c s).2.

(** An assignment to a field of an entry that never lowers the flag. *)
Definition flag_safe (f : ConnectionInfo → ConnectionInfo) : Prop :=
  ∀ info, is_authenticated info = true → is_authenticated (f info) = true.

(** The entry points that take an entry out of the registry. *)
Definition removes (o : op) : bool :=
  match o with
  | Disconnect _ | SendPingToAll | CleanupStaleConnections => true
  | _ => false
  end.

(** ** Sample data for the examples *)

(** Some draws of [secrets.token_hex(16)]. *)
Definition qr1 : string := "3f9a1c0b7e2d48a6b5c4d3e2f1a09b8c".
Definition qr2 : string := "a7c4e19b02d35f68791a2b3c4d5e6f70".
Definition session1 : string := "5b8e2f1a9c0d4e7f6a3b2c1d0e9f8a7b".
Definition session2 : string := "c0ffee00112233445566778899aabbcc".

(** A store with two profiles, "A" holding one button and "B" none. *)
Definition profile_a : Profile.t := Profile.mk "A" "Desk" None None.
Definition profile_b : Profile.t := Profile.mk "B" "Studio" None None.
Definition play_button : Button.t :=
  Button.mk "play" "Play" "play.svg" MEDIA_PLAY_PAUSE JNull None None.

(** An environment where every socket accepts every frame and [session1]
    is the one stored session token. *)
Definition sample_env : Env :=
  {| now := 100%Q;
     send_ok := λ _ _, true;
     accept_ok := λ _, true;
     exn_text := λ _, "error";
     str_of := λ v, match v with JStr x => x | _ => "?" end;
     auth_service := Auth.init {[session1]};
     profile_get_all := [profile_a; profile_b];
     profile_get_by_id := λ v,
       match v with
       | JStr x => find (λ p, String.eqb (Profile.id p) x) [profile_a; profile_b]
       | _ => None
       end;
     button_get_all := λ v,
       match v with
       | JStr x => if String.eqb x "A" then [play_button] else []
       | _ => []
       end;
     button_get_by_id := λ _ _, None;
     execute_action := λ _, JNull |}.

Definition sample_info (ws : WebSocket) (auth : bool) (profile : json) : ConnectionInfo :=
  {| websocket := ws; client_version := JStr "1.0"; is_authenticated := auth;
     active_profile_id := profile; connected_at := 0%Q; last_pong := 0%Q |}.

(** Two authenticated connections, 1 on profile "A" and 2 on profile "B",
    and connection 3 that has not completed the handshake. *)
Definition sample_registry : State :=
  {| _connections :=
       <[1%nat := sample_info 1 true (JStr "A")]>
         (<[2%nat := sample_info 2 true (JStr "B")]>
            (<[3%nat := sample_info 3 false JNull]> ∅));
     wire := [] |}.

(** The frames decoded from [{"type": t}] and from a handshake carrying
    [token]. *)
Definition bare_message (t : MessageType) : option json :=
  Some (JObj [("type", JStr (value t))]).

Definition hello_message (token : string) : option json :=
  Some (JObj [("type", JStr (value HELLO));
              ("payload", JObj [("version", JStr "1.0"); ("token", JStr token)])]).

(** A server whose database holds no profile and no button yet (the
    schema is created empty), with one device paired through the QR code:
    [session1] is the session token its exchange returned. *)
Definition fresh_install : Env :=
  {| now := 100%Q;
     send_ok := λ _ _, true;
     accept_ok := λ _, true;
     exn_text := λ _, "error";
     str_of := λ v, match v with JStr x => x | _ => "?" end;
     auth_service :=
       (Auth.exchange_qr_token 1 session1 qr1
          (Auth.issue_qr_token 0 qr1 None (Auth.init ∅)).2).2;
     profile_get_all := [];
     profile_get_by_id := λ _, None;
     button_get_all := λ _, [];
     button_get_by_id := λ _ _, None;
     execute_action := λ _, JNull |}.

(** ** Further descriptions of effects *)

(** The frames of the other pushes. *)
Definition profiles_list_frame (env : Env) : json :=
  create_message PROFILES_LIST (profiles_payload env).

Definition stats_frame (stats : SystemStats) : json :=
  create_message SYSTEM_STATS
    (JObj [("cpu", cpu_percent stats); ("ram", ram_percent stats);
           ("gpu", gpu_percent stats)]).

Definition ping_frame : json := create_message PING JNull.

(** An entry [broadcast_buttons_update()] without a profile id pushes to:
    authenticated and with an active profile. *)
Definition has_profile (info : ConnectionInfo) : bool :=
  is_authenticated info && truthy (active_profile_id info).

(** The shape shared by the two loops of the heartbeat, as a function on
    states: an entry is sent [msgs] and is closed when [drop] says so. *)
Definition sweep_effect (drop : WebSocket → ConnectionInfo → bool)
    (msgs : WebSocket → ConnectionInfo → list json)
    (s : State) (entry : WebSocket * ConnectionInfo) : State :=
  {| _connections :=
       if drop entry.1 entry.2 then delete entry.1 (_connections s)
       else _connections s;
     wire := wire s ++ ((λ m, (entry.1, m)) <$> msgs entry.1 entry.2) |}.

(** A move that concerns the connection [ws] alone: every other entry is as
    before and every new frame goes to [ws]. *)
Definition touches_only (ws : WebSocket) (s s' : State) : Prop :=
  (∀ ws', ws' ≠ ws → _connections s' !! ws' = _connections s !! ws') ∧
  ∃ new, wire s' = wire s ++ new ∧ Forall (λ frame, frame.1 = ws) new.

Definition local_to (ws : WebSocket) {A : Type} (c : M A) : Prop :=
  ∀ s, touches_only ws s (c s).2.

(** The frame a handshake is answered with when the token does not
    validate. *)
Definition auth_required_frame : json := create_message AUTH_REQUIRED JNull.

(** The reply of [_handle_button_pressed] to an authenticated connection
    whose active profile is [profile]. *)
Definition button_pressed_reply (env : Env) (profile button_id : json) : json :=
  if negb (truthy button_id) then error_frame "Missing buttonId"
  else if negb (truthy profile) then error_frame "No active profile"
  else match button_get_by_id env button_id profile with
       | None => error_frame ("Button not found: " ++ str_of env button_id)
       | Some button => create_message ACTION_RESULT (execute_action env button)
       end.

(** A handshake token that [validate_token] answers [False] to: absent or
    null, a number or a boolean, or a string that is not stored. *)
Definition token_refused (env : Env) (token : json) : Prop :=
  match token with
  | JNull | JBool _ | JNum _ => True
  | JStr t => (Auth.validate_token (Some t) (auth_service env)).1 = false
  | JArr _ | JObj _ => False
  end.

(** The error a [SWITCH_PROFILE] request is answered with when it names no
    profile or one the store does not know. *)
Definition switch_refusal (env : Env) (profile_id : json) : json :=
  if negb (truthy profile_id) then error_frame "Missing profileId"
  else error_frame ("Profile not found: " ++ str_of env profile_id).

(** The text of the error frame sent for a frame that is not a JSON
    object. *)
Definition malformed_text (env : Env) (data : option json) : string :=
  match data with
  | None => "Invalid JSON"
  | Some _ => exn_text env AttributeError
  end.

(** The frames that carry no data of the stores: errors, the request to
    authenticate and pings. *)
Definition harmless (m : json) : Prop :=
  ∃ t, t ∈ [ERROR; AUTH_REQUIRED; PING] ∧ type_of m = Some (JStr (value t)).

(** A move that removes no entry, lowers no flag and sends data only to
    connections that are authenticated when it ends. *)
Definition discreet (s s' : State) : Prop :=
  keeps true s s' ∧
  ∃ new, wire s' = wire s ++ new ∧
    Forall (λ frame, harmless frame.2 ∨ authenticated frame.1 s') new.

Definition modest {A : Type} (c : M A) : Prop := ∀ s, discreet s (c s).2.

(** A store in which "play" is a button of profile "A". *)
Definition sample_env_with_button : Env :=
  {| now := 100%Q;
     send_ok := λ _ _, true;
     accept_ok := λ _, true;
     exn_text := λ _, "error";
     str_of := λ v, match v with JStr x => x | _ => "?" end;
     auth_service := Auth.init {["5b8e2f1a9c0d4e7f6a3b2c1d0e9f8a7b"]};
     profile_get_all := [Profile.mk "A" "Desk" None None];
     profile_get_by_id := λ _, None;
     button_get_all := λ _, [];
     button_get_by_id := λ button_id profile_id,
       match button_id, profile_id with
       | JStr b, JStr p =>
           if String.eqb b "play" && String.eqb p "A"
           then Some (Button.mk "play" "Play" "play.svg" MEDIA_PLAY_PAUSE JNull None None)
           else None
       | _, _ => None
       end;
     execute_action := λ button,
       JObj [("buttonId", JStr (Button.id button)); ("status", JStr "success");
             ("message", JStr "Media action executed: MEDIA_PLAY_PAUSE")] |}.

(** ** Executing an action ([infrastructure/executors],
    [application/use_cases/execute_action.py]) *)

#[global] Instance ActionType_eq_dec : EqDecision ActionType.
Proof. solve_decision. Defined.

Module Executors.

(** The five executor classes. *)
Inductive Executor : Type :=
  | MediaExecutor | AppLauncherExecutor | HotkeyExecutor | UrlExecutor | FolderExecutor.

(** What the executors touch outside the program. A call either returns
    ([None]) or raises, and then [Some] holds [str(e)]. The launchers check
    the path in several ways before and while they open it: of their [try]
    block only the outcome is kept, whether the result is a success and
    with which message. *)
Record OS : Type := mkOS {
  press : string → option string;          (* pyautogui.press(key) *)
  hotkey : json → option string;           (* split, strip and pyautogui.hotkey *)
  open_url : json → option string;         (* webbrowser.open(url) *)
  open_folder : json → bool * string;      (* the try block of FolderExecutor *)
  launch_app : json → bool * string;       (* the try block of AppLauncherExecutor *)
  text_of : json → string;                 (* f"{v}" *)
  type_error : json → string               (* str(e) of the TypeError a payload raises *)
}.

(** [MediaExecutor._KEY_MAP], in the order it is written. *)
Definition _KEY_MAP : list (ActionType * string) :=
  [(MEDIA_PLAY_PAUSE, "playpause"); (MEDIA_NEXT, "nexttrack");
   (MEDIA_PREV, "prevtrack"); (VOLUME_UP, "volumeup");
   (VOLUME_DOWN, "volumedown"); (VOLUME_MUTE, "volumemute")].

(** [_KEY_MAP.get(action_type)] *)
Fixpoint key_of (action_type : ActionType) (table : list (ActionType * string))
    : option string :=
  match table with
  | [] => None
  | (a, key) :: rest =>
      if decide (a = action_type) then Some key else key_of action_type rest
  end.

(** The property [supported_actions] of each class. *)
Definition supported_actions (executor : Executor) : list ActionType :=
  match executor with
  | MediaExecutor => _KEY_MAP.*1
  | AppLauncherExecutor => [APP_LAUNCH]
  | HotkeyExecutor => [HOTKEY]
  | UrlExecutor => [OPEN_URL]
  | FolderExecutor => [OPEN_FOLDER]
  end.

(** [registry[action_type] = executor] and [create_executor_registry]: a
    later executor would overwrite the entry of an earlier one. *)
Definition assign (action_type : ActionType) (executor : Executor)
    (registry : ActionType → option Executor) : ActionType → option Executor :=
  λ a, if decide (a = action_type) then Some executor else registry a.

Definition create_executor_registry : ActionType → option Executor :=
  foldl (λ registry executor,
           foldl (λ registry action_type, assign action_type executor registry)
                 registry (supported_actions executor))
        (λ _, None)
        [MediaExecutor; AppLauncherExecutor; HotkeyExecutor; UrlExecutor; FolderExecutor].

(** The dict an executor returns. *)
Definition outcome (success : bool) (message : string) : list (string * json) :=
  [("status", JStr (if success then "success" else "error"));
   ("message", JStr message)].

(** [key in payload]; [None] when the test raises [TypeError] (a number or
    a boolean is not a container). On a list it looks for an equal item, on
    a string for a substring. *)
Definition contains (key : string) (payload : json) : option bool :=
  match payload with
  | JObj fields => Some (bool_decide (is_Some (dict_lookup key fields)))
  | JArr items =>
      Some (existsb (λ v, match v with JStr x => String.eqb x key | _ => false end) items)
  | JStr x => Some (bool_decide (is_Some (String.index 0 key x)))
  | JNull | JBool _ | JNum _ => None
  end.

(** The opening test [if not payload or key not in payload], followed by
    [payload[key]]: [inl] is an exception that escapes the executor, with
    its text; subscripting a list or a string with a string raises. *)
Definition with_key (os : OS) (key : string) (payload : json)
    (continue : json → string + list (string * json))
    : string + list (string * json) :=
  if negb (truthy payload)
  then inr (outcome false ("Missing '" ++ key ++ "' in payload"))
  else match contains key payload with
       | None => inl (type_error os payload)
       | Some false => inr (outcome false ("Missing '" ++ key ++ "' in payload"))
       | Some true =>
           match payload with
           | JObj fields =>
               match dict_lookup key fields with
               | Some v => continue v
               | None => inl (type_error os payload)
               end
           | _ => inl (type_error os payload)
           end
       end.

(** [executor.execute(action_type, payload)] *)
Definition execute (os : OS) (executor : Executor) (action_type : ActionType)
    (payload : json) : string + list (string * json) :=
  match executor with
  | MediaExecutor =>
      match key_of action_type _KEY_MAP with
      | None => inr (outcome false ("Unknown media action: " ++ action_value action_type))
      | Some key =>
          if String.eqb key ""
          then inr (outcome false ("Unknown media action: " ++ action_value action_type))
          else match press os key with
               | None =>
                   inr (outcome true
                          ("Media action executed: " ++ action_value action_type))
               | Some e => inr (outcome false ("Failed to execute media action: " ++ e))
               end
      end
  | HotkeyExecutor =>
      with_key os "hotkey" payload (λ hotkey_str,
        match hotkey os hotkey_str with
        | None => inr (outcome true ("Hotkey executed: " ++ text_of os hotkey_str))
        | Some e => inr (outcome false ("Failed to execute hotkey: " ++ e))
        end)
  | UrlExecutor =>
      with_key os "url" payload (λ url,
        match open_url os url with
        | None => inr (outcome true ("Opened URL: " ++ text_of os url))
        | Some e => inr (outcome false ("Failed to open URL: " ++ e))
        end)
  | FolderExecutor =>
      with_key os "path" payload (λ path_str,
        let '(success, message) := open_folder os path_str in
        inr (outcome success message))
  | AppLauncherExecutor =>
      (* here [payload["path"]] is read inside the try block *)
      if negb (truthy payload) then inr (outcome false "Missing 'path' in payload")
      else match contains "path" payload with
           | None => inl (type_error os payload)
           | Some false => inr (outcome false "Missing 'path' in payload")
           | Some true =>
               let '(success, message) := launch_app os payload in
               inr (outcome success message)
           end
  end.

End Executors.

Module ExecuteActionUseCase.

(** [ExecuteActionUseCase.execute(button)] over the registry of
    [create_executor_registry]. *)
Definition execute (os : Executors.OS) (button : Button.t) : json :=
  match Executors.create_executor_registry (Button.action_type button) with
  | None =>
      JObj [("buttonId", JStr (Button.id button));
            ("status", JStr "error");
            ("message", JStr ("No executor found for action type: "
                              ++ action_value (Button.action_type button)))]
  | Some executor =>
      match Executors.execute os executor (Button.action_type button)
              (Button.action_payload button) with
      | inr result =>
          JObj [("buttonId", JStr (Button.id button));
                ("status", default (JStr "success") (dict_lookup "status" result));
                ("message", default (JStr "Action executed") (dict_lookup "message" result))]
      | inl e =>
          JObj [("buttonId", JStr (Button.id button));
                ("status", JStr "error");
                ("message", JStr e)]
      end
  end.

(** The payload key each kind of action needs, if any. *)
Definition required_key (action_type : ActionType) : option string :=
  match action_type with
  | APP_LAUNCH | OPEN_FOLDER => Some "path"
  | HOTKEY => Some "hotkey"
  | OPEN_URL => Some "url"
  | _ => None
  end.

(** The kinds of button that only display a reading. *)
Definition display_only : list ActionType := [SYSTEM_CPU; SYSTEM_RAM; SYSTEM_GPU].

(** An OS on which every call succeeds. *)
Definition sample_os : Executors.OS :=
  {| Executors.press := λ _, None;
     Executors.hotkey := λ _, None;
     Executors.open_url := λ _, None;
     Executors.open_folder := λ _, (true, "Opened folder");
     Executors.launch_app := λ _, (true, "Launched");
     Executors.text_of := λ v, match v with JStr x => x | _ => "?" end;
     Executors.type_error := λ _, "TypeError" |}.

Definition url_button (payload : json) : Button.t :=
  Button.mk "docs" "Docs" "link.svg" OPEN_URL payload None None.

End ExecuteActionUseCase.

(** ** Three HTTP routes ([presentation/http/routes.py]) *)

Module Routes.

(** What a route hands back: the JSON body it returns, or the
    [HTTPException] it raises. *)
Inductive response : Type :=
  | Ok (body : json)
  | HTTPException (status_code : Z) (detail : string).

(** [GET /api/auth/qr-token]; an exception the route does not catch is
    answered by the framework with status 500. *)
Definition get_qr_token (now : Q) (fresh : string) (s : Auth.AuthService)
    : response * Auth.AuthService :=
  match Auth.issue_qr_token now fresh None s with
  | (inr qr_token, s1) =>
      (Ok (JObj [("qrToken", JStr qr_token);
                 ("ttlSeconds", JNum Auth.DEFAULT_QR_TTL_SECONDS)]), s1)
  | (inl _, s1) => (HTTPException 500 "Internal Server Error", s1)
  end.

(** [POST /api/auth/exchange]; [if not session_token] is a truth test. *)
Definition exchange_qr_token (now : Q) (fresh : string) (qr_token : string)
    (s : Auth.AuthService) : response * Auth.AuthService :=
  let '(result, s1) := Auth.exchange_qr_token now fresh qr_token s in
  match Auth.returned result with
  | Some session_token =>
      if String.eqb session_token ""
      then (HTTPException 401 "Invalid, expired, or already used QR token", s1)
      else (Ok (JObj [("sessionToken", JStr session_token)]), s1)
  | None => (HTTPException 401 "Invalid, expired, or already used QR token", s1)
  end.

(** [POST /api/profiles/{profile_id}/switch] *)
Definition switch_profile (env : Env) (profile_id : string) : M response :=
  match profile_get_by_id env (JStr profile_id) with
  | None => mret (HTTPException 404 "Profile not found")
  | Some _ =>
      broadcast_profile_switch env profile_id ;;
      mret (Ok (JObj [("status", JStr "switched"); ("profileId", JStr profile_id)]))
  end.

End Routes.

(** * Properties of the token service *)

Section AuthProperties.

Import Auth.

Implicit Types (s : AuthService) (t fresh : string) (q : QRToken) (now : Q).

Lemma token_hex_16_nonempty t : token_hex_16 t → t ≠ "".
Proof. intros Hlen ->. discriminate Hlen. Qed.

Lemma eqb_empty_false t : t ≠ "" → String.eqb t "" = false.
Proof. intros Hne. by apply String.eqb_neq. Qed.

(** Popping a batch of keys never adds an entry. *)
Lemma lookup_pop_all (m : gmap string QRToken) (l : list (string * QRToken)) t q :
  foldl (λ m kv, delete kv.1 m) m l !! t = Some q → m !! t = Some q.
Proof.
  revert m. induction l as [|kv l IH]; intros m; simpl; [done|].
  intros Hl. apply IH in Hl. by apply lookup_delete_Some in Hl as [_ ?].
Qed.

Lemma qr_inv_init stored : qr_inv (init stored).
Proof. intros t q. simpl. by rewrite lookup_empty. Qed.

Lemma qr_inv_issue_qr_token now fresh ttl s :
  token_hex_16 fresh → qr_inv s → qr_inv (issue_qr_token now fresh ttl s).2.
Proof.
  intros Hfresh Hinv t q. unfold issue_qr_token.
  assert (∀ q',
    match _current_qr_token s with
    | Some cur => if String.eqb cur "" then _qr_tokens s else delete cur (_qr_tokens s)
    | None => _qr_tokens s
    end !! t = Some q' → False) as Hpopped.
  { intros q' Hkept. destruct (_current_qr_token s) as [cur|] eqn:Hcur.
    - destruct (String.eqb cur "") eqn:Hempty.
      + apply Hinv in Hkept as (Ht & Hnonempty & _).
        rewrite Hcur in Ht. injection Ht as ->.
        by rewrite eqb_empty_false in Hempty.
      + apply lookup_delete_Some in Hkept as [Hcur_t Hkept].
        apply Hinv in Hkept as (Ht & _). congruence.
    - apply Hinv in Hkept as (Ht & _). congruence. }
  destruct (float_add_int now _) as [e|sum]; simpl.
  - intros Hkept. by destruct (Hpopped _ Hkept).
  - destruct (decide (t = fresh)) as [->|Hne].
    + rewrite lookup_insert_eq. intros [= <-].
      by split_and!; [|apply token_hex_16_nonempty|..].
    + rewrite lookup_insert_ne by done. intros Hkept. by destruct (Hpopped _ Hkept).
Qed.

(** Issuing a QR token leaves the session tokens and their file alone. *)
Lemma issue_qr_token_session_tokens now fresh ttl s :
  _tokens (issue_qr_token now fresh ttl s).2 = _tokens s ∧
  token_store (issue_qr_token now fresh ttl s).2 = token_store s.
Proof. unfold issue_qr_token. by destruct (float_add_int now _). Qed.

Lemma qr_inv_exchange_qr_token now fresh t s :
  qr_inv s → qr_inv (exchange_qr_token now fresh t s).2.
Proof.
  intros Hinv. unfold exchange_qr_token.
  destruct (_qr_tokens s !! t) as [qr_data|] eqn:Hget; [|done].
  destruct (used qr_data); [done|].
  destruct (past now qr_data); simpl.
  - intros t' q Hl. simpl in Hl.
    apply lookup_delete_Some in Hl as [_ Hl]. by apply Hinv.
  - intros t' q Hl. simpl in Hl. rewrite delete_insert_eq in Hl.
    apply lookup_delete_Some in Hl as [_ Hl]. by apply Hinv.
Qed.

Lemma qr_inv_exec c s : draws_ok c → qr_inv s → qr_inv (exec c s).
Proof.
  destruct c as [fresh|tok|t|now fresh ttl|now fresh qr|now]; simpl; intros Hdraw Hinv.
  - done.
  - by destruct tok.
  - unfold revoke_token. by case_bool_decide.
  - by apply qr_inv_issue_qr_token.
  - by apply qr_inv_exchange_qr_token.
  - intros t q Hl. apply lookup_pop_all in Hl. by apply Hinv.
Qed.

Lemma reachable_qr_inv s : reachable s → qr_inv s.
Proof.
  intros [stored Hreach].
  induction Hreach as [|c s _ IH Hdraw]; [apply qr_inv_init|by apply qr_inv_exec].
Qed.

Lemma not_elem_of_add (x y : string) (X : gset string) :
  x ≠ y → x ∉ X → x ∉ {[y]} ∪ X.
Proof.
  intros Hne Hx. rewrite elem_of_union, elem_of_singleton. by intros [?|?].
Qed.

(** The empty string never enters the token set through the interface. *)
Lemma reachable_no_empty_token stored s :
  "" ∉ stored → reachable_from stored s → "" ∉ _tokens s.
Proof.
  intros Hclean Hreach.
  induction Hreach as [|c s _ IH Hdraw]; [done|].
  destruct c as [fresh|tok|t|now fresh ttl|now fresh qr|now]; simpl in *.
  - apply token_hex_16_nonempty in Hdraw. by apply not_elem_of_add.
  - by destruct tok.
  - unfold revoke_token. case_bool_decide; simpl; [|done].
    rewrite elem_of_difference. by intros [? _].
  - unfold issue_qr_token. by destruct (float_add_int now _).
  - apply token_hex_16_nonempty in Hdraw. unfold exchange_qr_token.
    destruct (_qr_tokens s !! qr) as [qr_data|]; [|done].
    destruct (used qr_data); [done|].
    destruct (past now qr_data); simpl; [done|]. by apply not_elem_of_add.
  - done.
Qed.

(** A successful exchange: the entry is unused and not past its expiry. *)
Lemma exchange_qr_token_success now fresh t q s :
  _qr_tokens s !! t = Some q → used q = false → past now q = false →
  exchange_qr_token now fresh t s =
    (Session fresh,
     _save_tokens (set_tokens ({[fresh]} ∪ _tokens s)
                     (set_qr (delete t (_qr_tokens s)) (_current_qr_token s) s))).
Proof.
  intros Hget Hunused Hlive. unfold exchange_qr_token.
  rewrite Hget, Hunused, Hlive. simpl. by rewrite delete_insert_eq.
Qed.

Lemma exchange_qr_token_unknown now fresh t s :
  _qr_tokens s !! t = None →
  exchange_qr_token now fresh t s = (Rejected NotFound, s).
Proof. intros Hget. unfold exchange_qr_token. by rewrite Hget. Qed.

End AuthProperties.

Section AuthClaims.

Import Auth.

Implicit Types (s : AuthService) (t fresh : string) (q : QRToken) (now : Q).

(** C3 (as amended). Let [t1] be a QR token that [issue_qr_token] has put
    in the map of a running service and that is still there (not yet
    superseded, exchanged or swept), and let the clock not be past its
    expiry. The first [exchange_qr_token(t1)] returns a session token,
    which validates from then on; the exchange has removed the entry, so
    a second [exchange_qr_token(t1)], at any time, is rejected through the
    "token not found" branch and changes nothing. *)
Theorem qr_token_single_use s t1 q now1 fresh1 now2 fresh2 :
  reachable s → _qr_tokens s !! t1 = Some q → past now1 q = false →
  let first := exchange_qr_token now1 fresh1 t1 s in
  let second := exchange_qr_token now2 fresh2 t1 first.2 in
  first.1 = Session fresh1 ∧
  (validate_token (Some fresh1) first.2).1 = true ∧
  second = (Rejected NotFound, first.2).
Proof.
  intros Hreach Hget Hlive first second. subst first second.
  apply reachable_qr_inv in Hreach.
  destruct (Hreach _ _ Hget) as (_ & _ & _ & Hunused).
  rewrite (exchange_qr_token_success now1 fresh1 t1 q s) by done.
  split_and!; simpl.
  - done.
  - apply bool_decide_eq_true. apply elem_of_union_l. by apply elem_of_singleton.
  - apply exchange_qr_token_unknown. simpl. apply lookup_delete_eq.
Qed.

Lemma qr_token_single_use_witness :
  let s := (issue_qr_token 0 qr1 None (init ∅)).2 in
  let first := exchange_qr_token 1 session1 qr1 s in
  first.1 = Session session1 ∧
  (validate_token (Some session1) first.2).1 = true ∧
  exchange_qr_token 2 session2 qr1 first.2 = (Rejected NotFound, first.2).
Proof.
  apply (qr_token_single_use (issue_qr_token 0 qr1 None (init ∅)).2 qr1
           {| token := qr1; expires_at := Fnum (inject_Z 60); used := false |}
           1 session1 2 session2).
  - exists ∅. apply (reachable_call ∅ (IssueQrToken 0 qr1 None)).
    + apply reachable_init.
    + reflexivity.
  - vm_compute. reflexivity.
  - reflexivity.
Defined.

(** C3, as stated, fails: after a successful exchange the second exchange
    of the same QR token is rejected as not found, not as already used. *)
Lemma second_exchange_not_already_used :
  let s := (issue_qr_token 0 qr1 None (init ∅)).2 in
  let first := exchange_qr_token 1 session1 qr1 s in
  let second := exchange_qr_token 2 session2 qr1 first.2 in
  first.1 = Session session1 ∧
  second.1 = Rejected NotFound ∧
  second.1 ≠ Rejected AlreadyUsed.
Proof. vm_compute. by split_and!. Qed.

(** C4. While [t1] is outstanding in a running service, issuing another QR
    token [t2] drops [t1] from the map, although it was never used: every
    later [exchange_qr_token(t1)] is rejected as not found. (This holds
    whether or not [t1] has expired by then.) *)
Theorem qr_token_superseded s t1 q now2 t2 ttl2 now3 fresh3 :
  reachable s → _qr_tokens s !! t1 = Some q → t2 ≠ t1 →
  let s2 := (issue_qr_token now2 t2 ttl2 s).2 in
  _qr_tokens s2 !! t1 = None ∧
  exchange_qr_token now3 fresh3 t1 s2 = (Rejected NotFound, s2).
Proof.
  intros Hreach Hget Hne s2.
  assert (_qr_tokens s2 !! t1 = None) as Hgone.
  { subst s2. unfold issue_qr_token.
    apply reachable_qr_inv in Hreach.
    destruct (Hreach _ _ Hget) as (Hcur & Hnonempty & _).
    rewrite Hcur, eqb_empty_false by done.
    destruct (float_add_int now2 _) as [e|sum]; simpl.
    - apply lookup_delete_eq.
    - rewrite lookup_insert_ne by done. apply lookup_delete_eq. }
  split; [done|]. by apply exchange_qr_token_unknown.
Qed.

Lemma qr_token_superseded_witness :
  let s := (issue_qr_token 0 qr1 None (init ∅)).2 in
  let s2 := (issue_qr_token 5 qr2 None s).2 in
  _qr_tokens s2 !! qr1 = None ∧
  exchange_qr_token 6 session1 qr1 s2 = (Rejected NotFound, s2).
Proof.
  apply (qr_token_superseded (issue_qr_token 0 qr1 None (init ∅)).2 qr1
           {| token := qr1; expires_at := Fnum (inject_Z 60); used := false |}
           5 qr2 None 6 session1).
  - exists ∅. apply (reachable_call ∅ (IssueQrToken 0 qr1 None)).
    + apply reachable_init.
    + reflexivity.
  - vm_compute. reflexivity.
  - discriminate.
Defined.

(** C8. The token [issue_token] returns validates in the state it leaves;
    [revoke_token(t)] returns whether [t] was stored, and [t] no longer
    validates afterwards. *)
Theorem session_token_lifecycle s fresh t :
  (validate_token (Some (issue_token fresh s).1) (issue_token fresh s).2).1 = true ∧
  (revoke_token t s).1 = bool_decide (t ∈ _tokens s) ∧
  (validate_token (Some t) (revoke_token t s).2).1 = false.
Proof.
  split_and!; simpl.
  - apply bool_decide_eq_true. apply elem_of_union_l. by apply elem_of_singleton.
  - unfold revoke_token. by case_bool_decide.
  - unfold revoke_token. destruct (decide (t ∈ _tokens s)) as [Hin|Hout].
    + rewrite (bool_decide_eq_true_2 _ Hin). simpl.
      apply bool_decide_eq_false. rewrite elem_of_difference, elem_of_singleton.
      by intros [_ ?].
    + rewrite (bool_decide_eq_false_2 _ Hout). simpl.
      by apply bool_decide_eq_false.
Qed.

(** Both writes reach the token file. *)
Lemma session_token_persisted s fresh t :
  token_store (issue_token fresh s).2 = _tokens (issue_token fresh s).2 ∧
  (t ∈ _tokens s → token_store (revoke_token t s).2 = _tokens (revoke_token t s).2).
Proof.
  split; [done|]. intros Hin. unfold revoke_token.
  by rewrite bool_decide_eq_true_2.
Qed.

(** C9 (as amended). [validate_token] answers [False] to [None]; to any
    string, the empty one included, it answers whether that string is in
    the stored set; it leaves the service as it was. *)
Theorem validate_token_membership s tok :
  validate_token tok s =
    (match tok with
     | None => false
     | Some t => bool_decide (t ∈ _tokens s)
     end, s).
Proof. by destruct tok. Qed.

(** C9, as stated, fails: a token file that lists the empty string makes
    the empty string validate. *)
Lemma empty_token_validates_when_stored :
  (validate_token (Some "") (init {[""]})).1 = true.
Proof. vm_compute. reflexivity. Qed.

(** No token the service issues is empty: unless the token file lists the
    empty string, it is always refused. *)
Lemma empty_token_refused stored s :
  "" ∉ stored → reachable_from stored s → (validate_token (Some "") s).1 = false.
Proof.
  intros Hclean Hreach. simpl. apply bool_decide_eq_false.
  by apply (reachable_no_empty_token stored).
Qed.

End AuthClaims.

(** * Properties of the handler *)

(** ** Running the monad *)

Section Running.

Context {A B : Type}.

Lemma run_ret (a : A) s : mret (M := M) a s = (inr a, s).
Proof. reflexivity. Qed.

Lemma run_bind (c : M A) (f : A → M B) s :
  (c ≫= f) s =
    match c s with
    | (inl e, s1) => (inl e, s1)
    | (inr a, s1) => f a s1
    end.
Proof. reflexivity. Qed.

Lemma run_bind_ok (c : M A) (f : A → M B) s a s1 :
  c s = (inr a, s1) → (c ≫= f) s = f a s1.
Proof. intros Hc. by rewrite run_bind, Hc. Qed.

Lemma run_bind_raise (c : M A) (f : A → M B) s e s1 :
  c s = (inl e, s1) → (c ≫= f) s = (inl e, s1).
Proof. intros Hc. by rewrite run_bind, Hc. Qed.

End Running.

(** A loop whose body never raises folds the body's effect over the list. *)
Lemma for_each_fold {X : Type} (body : X → M unit) (effect : State → X → State) :
  (∀ x s, body x s = (inr tt, effect s x)) →
  ∀ xs s, for_each xs body s = (inr tt, foldl effect s xs).
Proof.
  intros Hbody xs. induction xs as [|x xs IH]; intros s; simpl; [done|].
  rewrite run_bind, Hbody. apply IH.
Qed.

(** ** Frames per connection *)

Lemma frames_to_app ws w1 w2 :
  frames_to ws (w1 ++ w2) = frames_to ws w1 ++ frames_to ws w2.
Proof. unfold frames_to. by rewrite filter_app, fmap_app. Qed.

Lemma frames_to_cons_same ws m w :
  frames_to ws ((ws, m) :: w) = m :: frames_to ws w.
Proof. unfold frames_to. by rewrite filter_cons_True. Qed.

Lemma frames_to_cons_other ws ws' m w :
  ws' ≠ ws → frames_to ws ((ws', m) :: w) = frames_to ws w.
Proof. intros Hne. unfold frames_to. by rewrite filter_cons_False. Qed.

Lemma frames_to_same ws (ms : list json) :
  frames_to ws ((λ m, (ws, m)) <$> ms) = ms.
Proof.
  induction ms as [|m ms IH]; [done|].
  rewrite fmap_cons, frames_to_cons_same. by rewrite IH.
Qed.

Lemma frames_to_other ws ws' (ms : list json) :
  ws' ≠ ws → frames_to ws ((λ m, (ws', m)) <$> ms) = [].
Proof.
  intros Hne. induction ms as [|m ms IH]; [done|].
  by rewrite fmap_cons, frames_to_cons_other.
Qed.

(** ** Loops over the registry snapshot *)

Section Snapshot.

Variables (sel : ConnectionInfo → bool) (f : ConnectionInfo → ConnectionInfo)
          (msgs : WebSocket → ConnectionInfo → list json).

#[local] Abbreviation effect := (push_effect sel f msgs).

Lemma push_effect_lookup (l : list (WebSocket * ConnectionInfo)) s ws :
  NoDup l.*1 →
  _connections (foldl effect s l) !! ws =
    match (list_to_map l : gmap WebSocket ConnectionInfo) !! ws with
    | Some info => if sel info then f <$> _connections s !! ws else _connections s !! ws
    | None => _connections s !! ws
    end.
Proof.
  revert s. induction l as [|[ws' info'] l IH]; intros s Hnodup; simpl; [done|].
  apply NoDup_cons in Hnodup as [Hfresh Hnodup].
  rewrite IH by done.
  destruct (decide (ws' = ws)) as [->|Hne].
  - rewrite lookup_insert_eq.
    rewrite (not_elem_of_list_to_map_1 (M := gmap WebSocket)) by done.
    unfold push_effect. simpl. destruct (sel info'); [|done].
    simpl. apply lookup_alter_eq.
  - rewrite lookup_insert_ne by done.
    assert (_connections (effect s (ws', info')) !! ws = _connections s !! ws)
      as ->; [|done].
    unfold push_effect. simpl. destruct (sel info'); [|done].
    simpl. by apply lookup_alter_ne.
Qed.

Lemma push_effect_wire (l : list (WebSocket * ConnectionInfo)) s :
  wire (foldl effect s l) =
    wire s ++ concat ((λ entry, if sel entry.2
                                then (λ m, (entry.1, m)) <$> msgs entry.1 entry.2
                                else []) <$> l).
Proof.
  revert s. induction l as [|entry l IH]; intros s; simpl.
  - by rewrite app_nil_r.
  - rewrite IH. unfold push_effect. destruct (sel entry.2); simpl.
    + by rewrite <- app_assoc.
    + done.
Qed.

Lemma pushed_frames_to (l : list (WebSocket * ConnectionInfo)) ws :
  NoDup l.*1 →
  frames_to ws (concat ((λ entry, if sel entry.2
                                  then (λ m, (entry.1, m)) <$> msgs entry.1 entry.2
                                  else []) <$> l)) =
    match (list_to_map l : gmap WebSocket ConnectionInfo) !! ws with
    | Some info => if sel info then msgs ws info else []
    | None => []
    end.
Proof.
  induction l as [|[ws' info'] l IH]; intros Hnodup; [done|].
  rewrite fmap_cons in Hnodup. apply NoDup_cons in Hnodup as [Hfresh Hnodup].
  rewrite fmap_cons, list_to_map_cons. cbn [concat fst snd].
  rewrite frames_to_app, IH by done.
  destruct (decide (ws' = ws)) as [->|Hne].
  - rewrite lookup_insert_eq.
    rewrite (not_elem_of_list_to_map_1 (M := gmap WebSocket)) by done.
    rewrite app_nil_r. destruct (sel info'); [apply frames_to_same|done].
  - rewrite lookup_insert_ne by done.
    destruct (sel info'); [by rewrite frames_to_other|done].
Qed.

(** Over the snapshot of the registry itself. *)
Lemma push_snapshot_connections s :
  _connections (foldl effect s (map_to_list (_connections s))) =
    pushed sel f <$> _connections s.
Proof.
  apply map_eq. intros ws.
  rewrite push_effect_lookup by apply NoDup_fst_map_to_list.
  rewrite list_to_map_to_list, lookup_fmap. unfold pushed.
  destruct (_connections s !! ws) as [info|]; simpl; [|done].
  by destruct (sel info).
Qed.

Lemma push_snapshot_frames s ws :
  ∃ new, wire (foldl effect s (map_to_list (_connections s))) = wire s ++ new ∧
    frames_to ws new =
      match _connections s !! ws with
      | Some info => if sel info then msgs ws info else []
      | None => []
      end.
Proof.
  eexists. split; [apply push_effect_wire|].
  rewrite pushed_frames_to by apply NoDup_fst_map_to_list.
  by rewrite list_to_map_to_list.
Qed.

End Snapshot.

(** ** The broadcasts *)

Section Broadcasts.

Variable env : Env.

Lemma run_send_json ws m s :
  send_json env ws m s =
    if send_ok env ws m
    then (inr tt, {| _connections := _connections s; wire := wire s ++ [(ws, m)] |})
    else (inl (SendError ws), s).
Proof. reflexivity. Qed.

(** Frames sent in a row under [try ... except: pass]. *)
Lemma run_try_pass_send2 ws m1 m2 s :
  try_pass (send_json env ws m1 ;; send_json env ws m2) s =
    (inr tt, {| _connections := _connections s;
                wire := wire s ++ ((λ m, (ws, m)) <$> accepted env ws [m1; m2]) |}).
Proof.
  unfold try_pass, try_except. rewrite run_bind, run_send_json. simpl.
  destruct (send_ok env ws m1); simpl.
  - rewrite run_send_json. destruct (send_ok env ws m2); simpl.
    + by rewrite <- app_assoc.
    + done.
  - destruct s. simpl. by rewrite app_nil_r.
Qed.

Lemma run_try_pass_send1 ws m s :
  try_pass (send_json env ws m) s =
    (inr tt, {| _connections := _connections s;
                wire := wire s ++ ((λ m, (ws, m)) <$> accepted env ws [m]) |}).
Proof.
  unfold try_pass, try_except. rewrite run_send_json. simpl.
  destruct (send_ok env ws m); simpl; [done|].
  destruct s. simpl. by rewrite app_nil_r.
Qed.

Lemma run_is_empty s :
  is_empty s = (inr (bool_decide (_connections s = ∅)), s).
Proof. reflexivity. Qed.

Lemma run_items s : items s = (inr (map_to_list (_connections s)), s).
Proof. reflexivity. Qed.

(** The loop of [broadcast_profile_switch(profile_id)]. *)
Lemma run_broadcast_profile_switch profile_id p s :
  profile_get_by_id env (JStr profile_id) = Some p →
  broadcast_profile_switch env profile_id s =
    (inr tt,
     foldl (push_effect is_authenticated (set_active_profile_id (JStr profile_id))
              (switch_frames env profile_id))
           s (map_to_list (_connections s))).
Proof.
  intros Hknown. unfold broadcast_profile_switch.
  rewrite run_bind, run_is_empty. simpl.
  case_bool_decide as Hempty.
  { rewrite Hempty, map_to_list_empty. reflexivity. }
  rewrite Hknown, run_bind, run_items. simpl.
  apply for_each_fold. intros [ws info] s1. unfold push_effect. simpl.
  destruct (is_authenticated info); [|done].
  rewrite run_bind. simpl. by rewrite run_try_pass_send2.
Qed.

(** The loop of [broadcast_buttons_update(profile_id)] when a profile id is
    given (and is not the empty string): the target of every iteration is
    that id, whatever the entry's own active profile. *)
Lemma run_broadcast_buttons_update_given profile_id s :
  profile_id ≠ "" →
  broadcast_buttons_update env (Some profile_id) s =
    (inr tt,
     foldl (push_effect is_authenticated id (update_frames env profile_id))
           s (map_to_list (_connections s))).
Proof.
  intros Hgiven. unfold broadcast_buttons_update.
  rewrite run_bind, run_is_empty. simpl.
  case_bool_decide as Hempty.
  { rewrite Hempty, map_to_list_empty. reflexivity. }
  rewrite run_bind, run_items. simpl.
  apply for_each_fold. intros [ws info] s1. unfold push_effect, py_or. simpl.
  apply String.eqb_neq in Hgiven.
  rewrite Hgiven. simpl.
  destruct (is_authenticated info); simpl; [|done].
  rewrite Hgiven. simpl.
  rewrite run_try_pass_send1. do 2 f_equal.
  apply map_eq. intros k. rewrite lookup_alter.
  case_decide; [subst|done]. by destruct (_connections s1 !! k).
Qed.

End Broadcasts.

Section BroadcastClaims.

Variable env : Env.

(** C10. When the profile store does not know [profile_id],
    [broadcast_profile_switch(profile_id)] returns without touching the
    registry and without sending anything. *)
Theorem broadcast_profile_switch_unknown profile_id s :
  profile_get_by_id env (JStr profile_id) = None →
  broadcast_profile_switch env profile_id s = (inr tt, s).
Proof.
  intros Hunknown. unfold broadcast_profile_switch.
  rewrite run_bind, run_is_empty. simpl.
  case_bool_decide; [done|]. by rewrite Hunknown.
Qed.

(** C5 (as amended). When the profile store knows [profile_id],
    [broadcast_profile_switch(profile_id)] never raises; it assigns
    [profile_id] as active profile to every authenticated entry, whatever
    it was before, and leaves every other entry as it is; the frames it
    adds to the wire are, for each authenticated connection,
    [PROFILE_SWITCHED] carrying [profile_id] and then the [BUTTONS_LIST] of
    [profile_id], as far as the socket accepts them, and nothing for any
    other connection. *)
Theorem broadcast_profile_switch_known profile_id p s :
  profile_get_by_id env (JStr profile_id) = Some p →
  let r := broadcast_profile_switch env profile_id s in
  r.1 = inr tt ∧
  _connections r.2 =
    pushed is_authenticated (set_active_profile_id (JStr profile_id))
      <$> _connections s ∧
  ∃ new, wire r.2 = wire s ++ new ∧
    ∀ ws, frames_to ws new =
      match _connections s !! ws with
      | Some info =>
          if is_authenticated info
          then accepted env ws [profile_switched_frame profile_id;
                                buttons_list_frame env (JStr profile_id)]
          else []
      | None => []
      end.
Proof.
  intros Hknown r. subst r.
  rewrite (run_broadcast_profile_switch env profile_id p s Hknown). simpl.
  split_and!.
  - done.
  - apply push_snapshot_connections.
  - pose proof (push_effect_wire is_authenticated
                (set_active_profile_id (JStr profile_id))
                (switch_frames env profile_id)
                (map_to_list (_connections s)) s) as Hwire.
    eexists. split; [exact Hwire|]. intros ws.
    rewrite pushed_frames_to by apply NoDup_fst_map_to_list.
    by rewrite list_to_map_to_list.
Qed.

(** On a given, non-empty [profile_id], [broadcast_buttons_update] sends
    the [BUTTONS_LIST] of [profile_id] to every authenticated connection;
    the entry's own active profile plays no part. *)
Lemma broadcast_buttons_update_given profile_id s :
  profile_id ≠ "" →
  let r := broadcast_buttons_update env (Some profile_id) s in
  r.1 = inr tt ∧
  _connections r.2 = _connections s ∧
  ∃ new, wire r.2 = wire s ++ new ∧
    ∀ ws, frames_to ws new =
      match _connections s !! ws with
      | Some info =>
          if is_authenticated info
          then accepted env ws [buttons_list_frame env (JStr profile_id)]
          else []
      | None => []
      end.
Proof.
  intros Hgiven r. subst r.
  rewrite (run_broadcast_buttons_update_given env profile_id s Hgiven). simpl.
  split_and!.
  - done.
  - rewrite push_snapshot_connections. apply map_eq. intros ws.
    rewrite lookup_fmap. destruct (_connections s !! ws) as [info|]; [|done].
    simpl. unfold pushed. by destruct (is_authenticated info).
  - pose proof (push_effect_wire is_authenticated id (update_frames env profile_id)
                (map_to_list (_connections s)) s) as Hwire.
    eexists. split; [exact Hwire|]. intros ws.
    rewrite pushed_frames_to by apply NoDup_fst_map_to_list.
    by rewrite list_to_map_to_list.
Qed.

End BroadcastClaims.

Lemma broadcast_profile_switch_unknown_witness :
  broadcast_profile_switch sample_env "Z" sample_registry = (inr tt, sample_registry).
Proof.
  apply (broadcast_profile_switch_unknown sample_env "Z" sample_registry).
  reflexivity.
Defined.

Lemma broadcast_profile_switch_known_witness :
  let r := broadcast_profile_switch sample_env "B" sample_registry in
  r.1 = inr tt ∧
  _connections r.2 =
    pushed is_authenticated (set_active_profile_id (JStr "B"))
      <$> _connections sample_registry ∧
  ∃ new, wire r.2 = wire sample_registry ++ new ∧
    ∀ ws, frames_to ws new =
      match _connections sample_registry !! ws with
      | Some info =>
          if is_authenticated info
          then accepted sample_env ws [profile_switched_frame "B";
                                       buttons_list_frame sample_env (JStr "B")]
          else []
      | None => []
      end.
Proof.
  apply (broadcast_profile_switch_known sample_env "B" profile_b sample_registry).
  reflexivity.
Defined.

(** C5, as stated, fails: for a profile id the store does not know, the
    authenticated connection 1 stays on its profile and is sent nothing. *)
Lemma broadcast_profile_switch_unknown_keeps_profile :
  let r := broadcast_profile_switch sample_env "Z" sample_registry in
  is_authenticated <$> _connections sample_registry !! 1%nat = Some true ∧
  active_profile_id <$> _connections r.2 !! 1%nat = Some (JStr "A") ∧
  active_profile_id <$> _connections r.2 !! 1%nat ≠ Some (JStr "Z") ∧
  wire r.2 = [].
Proof. vm_compute. by split_and!. Qed.

(** C1 fails on the code. With connection 1 on profile "A" and connection 2
    on profile "B", both authenticated, [broadcast_buttons_update("A")]
    sends the buttons of "A" to connection 2 as well. *)
Theorem buttons_update_reaches_other_profile :
  let r := broadcast_buttons_update sample_env (Some "A") sample_registry in
  is_authenticated <$> _connections sample_registry !! 2%nat = Some true ∧
  active_profile_id <$> _connections sample_registry !! 2%nat = Some (JStr "B") ∧
  frames_to 2 (wire r.2) = [buttons_list_frame sample_env (JStr "A")] ∧
  frames_to 1 (wire r.2) = [buttons_list_frame sample_env (JStr "A")].
Proof. vm_compute. by split_and!. Qed.

(** ** Messages from one connection *)

Section Messages.

Variable env : Env.

Lemma run_connection ws info s :
  _connections s !! ws = Some info → connection ws s = (inr info, s).
Proof. intros Hget. unfold connection. rewrite run_bind. simpl. by rewrite Hget. Qed.

Lemma run_update_connection ws f info s :
  _connections s !! ws = Some info →
  update_connection ws f s =
    (inr tt, {| _connections := <[ws := f info]> (_connections s); wire := wire s |}).
Proof.
  intros Hget. unfold update_connection.
  by rewrite (run_bind_ok _ _ _ _ _ (run_connection ws info s Hget)).
Qed.

Lemma run_is_authenticated ws info s :
  _connections s !! ws = Some info →
  _is_authenticated ws s = (inr (is_authenticated info), s).
Proof. intros Hget. unfold _is_authenticated. rewrite run_bind. simpl. by rewrite Hget. Qed.

Lemma run_send_json_ok ws m s :
  send_ok env ws m = true →
  send_json env ws m s =
    (inr tt, {| _connections := _connections s; wire := wire s ++ [(ws, m)] |}).
Proof. intros Hok. by rewrite run_send_json, Hok. Qed.

Lemma run_send_buttons_list ws info s :
  _connections s !! ws = Some info →
  _send_buttons_list env ws s =
    send_json env ws (buttons_list_for env (active_profile_id info)) s.
Proof.
  intros Hget. unfold _send_buttons_list, buttons_list_for.
  rewrite (run_bind_ok _ _ _ _ _ (run_connection ws info s Hget)).
  by destruct (truthy (active_profile_id info)).
Qed.

Lemma elem_of_dom_registry ws info s :
  _connections s !! ws = Some info → bool_decide (ws ∈ dom (_connections s)) = true.
Proof. intros Hget. apply bool_decide_eq_true. apply elem_of_dom. by eexists. Qed.

Lemma run_connections s : connections s = (inr (_connections s), s).
Proof. reflexivity. Qed.

Lemma run_get_default fields key d s :
  get_default (JObj fields) key d s = (inr (default d (dict_lookup key fields)), s).
Proof. unfold get_default. by destruct (dict_lookup key fields). Qed.

Lemma run_when_true (body : M unit) s : when true body s = body s.
Proof. reflexivity. Qed.

Lemma run_when_false (body : M unit) s : when false body s = (inr tt, s).
Proof. reflexivity. Qed.

Lemma run_auth_validate_token_str token s :
  auth_validate_token env (JStr token) s =
    (inr (Auth.validate_token (Some token) (auth_service env)).1, s).
Proof. reflexivity. Qed.

Lemma run_handle_hello_valid ws info s pfields token :
  _connections s !! ws = Some info →
  dict_lookup "token" pfields = Some (JStr token) →
  (Auth.validate_token (Some token) (auth_service env)).1 = true →
  (∀ m, send_ok env ws m = true) →
  let version := default (JStr "unknown") (dict_lookup "version" pfields) in
  let profile := bound_profile env (active_profile_id info) in
  let info' := set_active_profile_id profile
                 (set_is_authenticated true (set_client_version version info)) in
  _handle_hello env ws (JObj pfields) s =
    (inr tt,
     {| _connections := <[ws := info']> (_connections s);
        wire := wire s ++
          [(ws, create_message WELCOME (JObj [("version", JStr PROTOCOL_VERSION)]));
           (ws, create_message PROFILES_LIST (profiles_payload env));
           (ws, buttons_list_for env profile)] |}).
Proof.
  intros Hget Htoken Hvalid Hsend version profile info'.
  unfold _handle_hello.
  rewrite (run_bind_ok _ _ _ _ _ (run_get_default _ _ _ _)).
  rewrite (run_bind_ok _ _ _ _ _ (run_get_default _ _ _ _)).
  rewrite Htoken. cbn [default].
  rewrite (run_bind_ok _ _ _ _ _ (run_connections _)).
  rewrite (elem_of_dom_registry ws info s Hget). cbn [when default from_option id].
  rewrite (run_bind_ok _ _ _ _ _ (run_update_connection ws _ info s Hget)).
  rewrite (run_bind_ok _ _ _ _ _ (run_auth_validate_token_str _ _)).
  rewrite Hvalid.
  set (info1 := set_client_version _ info).
  set (s1 := {| _connections := <[ws:=info1]> (_connections s) |}).
  assert (_connections s1 !! ws = Some info1) as Hget1 by apply lookup_insert_eq.
  rewrite (run_bind_ok _ _ _ _ _ (run_update_connection ws _ info1 s1 Hget1)).
  set (info2 := set_is_authenticated true info1).
  set (s2 := {| _connections := <[ws:=info2]> (_connections s1) |}).
  assert (_connections s2 !! ws = Some info2) as Hget2 by apply lookup_insert_eq.
  rewrite (run_bind_ok _ _ _ _ _ (run_connection ws info2 s2 Hget2)).
  set (s3 := {| _connections := <[ws:=info']> (_connections s); wire := wire s |}).
  assert (_connections s2 = <[ws:=info2]> (_connections s)) as Hconns2.
  { subst s2 s1. simpl. apply insert_insert_eq. }
  erewrite (run_bind_ok _ _ s2 tt s3); cycle 1.
  { subst s3 info' profile. unfold bound_profile.
    change (active_profile_id info2) with (active_profile_id info).
    destruct (truthy (active_profile_id info)); cbn [negb when].
    - rewrite run_ret. subst s2 s1. simpl. by rewrite insert_insert_eq.
    - destruct (profile_get_default_profile env) as [default_profile|].
      + rewrite (run_update_connection ws _ info2 s2 Hget2).
        by rewrite Hconns2, insert_insert_eq.
      + rewrite run_ret. subst s2 s1. simpl. by rewrite insert_insert_eq. }
  rewrite (run_bind_ok _ _ _ _ _ (run_send_json_ok _ _ _ (Hsend _))).
  unfold _send_profiles_list.
  rewrite (run_bind_ok _ _ _ _ _ (run_send_json_ok _ _ _ (Hsend _))).
  erewrite run_send_buttons_list by (simpl; apply lookup_insert_eq).
  rewrite (run_send_json_ok _ _ _ (Hsend _)). simpl.
  by rewrite <- !app_assoc.
Qed.

(** A gated request from a connection that is not authenticated. *)
Lemma run_refused (handler : M unit) ws s :
  handler s = _send_error env ws "Not authenticated" s →
  try_except handler
    (λ e, match e with
          | JSONDecodeError => _send_error env ws "Invalid JSON"
          | _ => _send_error env ws (exn_text env e)
          end) s =
    (if send_ok env ws (error_frame "Not authenticated") then inr tt
     else if send_ok env ws (error_frame (exn_text env (SendError ws))) then inr tt
     else inl (SendError ws),
     {| _connections := _connections s;
        wire := wire s ++ ((λ m, (ws, m)) <$> refusal env ws) |}).
Proof.
  intros Hhandler. unfold try_except, refusal. rewrite Hhandler.
  unfold _send_error. fold (error_frame "Not authenticated").
  rewrite run_send_json.
  destruct (send_ok env ws (error_frame "Not authenticated")); [done|].
  fold (error_frame (exn_text env (SendError ws))).
  rewrite run_send_json. simpl.
  destruct (send_ok env ws (error_frame (exn_text env (SendError ws)))); [done|].
  destruct s. simpl. by rewrite app_nil_r.
Qed.

Lemma run_handle_message_object ws fields s :
  handle_message env ws (Some (JObj fields)) s =
    try_except
      (dispatch env ws (default JNull (dict_lookup "type" fields))
                       (default (JObj []) (dict_lookup "payload" fields)))
      (λ e, match e with
            | JSONDecodeError => _send_error env ws "Invalid JSON"
            | _ => _send_error env ws (exn_text env e)
            end) s.
Proof.
  unfold handle_message, try_except.
  rewrite (run_bind_ok _ _ _ _ _ (run_ret _ _)).
  rewrite (run_bind_ok _ _ _ _ _ (run_get_default _ _ _ _)).
  by rewrite (run_bind_ok _ _ _ _ _ (run_get_default _ _ _ _)).
Qed.

End Messages.

Section MessageClaims.

Variable env : Env.

(** A string that is the value of no dispatched type reaches the default
    case. *)
Lemma dispatch_default ws msg_type payload s :
  (∀ t, t ∈ dispatched_types → msg_type ≠ JStr (value t)) →
  dispatch env ws msg_type payload s = (inr tt, s).
Proof.
  intros Hother. destruct msg_type as [| | |t| |]; try done.
  unfold dispatch.
  assert (∀ k, k ∈ dispatched_types → String.eqb t (value k) = false) as Hneq.
  { intros k Hk. apply String.eqb_neq. intros ->. by apply (Hother k). }
  rewrite !Hneq; [done|unfold dispatched_types; rewrite !elem_of_cons; auto 10..].
Qed.

(** C2 (as amended). Let [ws] be registered and not authenticated, and let
    the frame decode to an object whose [type] is [msg_type].
    - For [BUTTON_PRESSED], [GET_BUTTONS], [GET_PROFILES] and
      [SWITCH_PROFILE], whatever the payload, the registry stays as it is
      and the connection is sent the error "Not authenticated" (if the
      socket refuses it, the error frame of that failure instead, if the
      socket takes it) and nothing else.
    - [PONG] is accepted: nothing is sent and the entry's [last_pong]
      becomes the current time, nothing else changes.
    - A [type] that none of the cases matches is ignored: nothing is sent,
      nothing changes. *)
Theorem unauthenticated_dispatch ws info s fields msg_type :
  _connections s !! ws = Some info →
  is_authenticated info = false →
  dict_lookup "type" fields = Some msg_type →
  let r := handle_message env ws (Some (JObj fields)) s in
  (∀ t, t ∈ gated_requests → msg_type = JStr (value t) →
     _connections r.2 = _connections s ∧
     wire r.2 = wire s ++ ((λ m, (ws, m)) <$> refusal env ws) ∧
     Forall is_error_frame (refusal env ws)) ∧
  (msg_type = JStr (value PONG) →
     r = (inr tt,
          {| _connections := <[ws := set_last_pong (now env) info]> (_connections s);
             wire := wire s |})) ∧
  ((∀ t, t ∈ dispatched_types → msg_type ≠ JStr (value t)) →
     r = (inr tt, s)).
Proof.
  intros Hget Hunauth Htype r. subst r.
  rewrite run_handle_message_object, Htype. cbn [default from_option id].
  split_and!.
  - intros t Hgated ->.
    rewrite run_refused.
    { split_and!; [done..|]. unfold refusal.
      destruct (send_ok env ws (error_frame "Not authenticated")).
      - by repeat constructor.
      - simpl. destruct (send_ok env ws _); by repeat constructor. }
    unfold gated_requests in Hgated. rewrite !elem_of_cons in Hgated.
    destruct Hgated as [->|[->|[->|[->|Hnone]]]]; [..|by apply elem_of_nil in Hnone].
    + change (dispatch env ws (JStr (value BUTTON_PRESSED)) ?p)
        with (_handle_button_pressed env ws p).
      unfold _handle_button_pressed.
      rewrite (run_bind_ok _ _ _ _ _ (run_is_authenticated ws info s Hget)).
      by rewrite Hunauth.
    + change (dispatch env ws (JStr (value GET_BUTTONS)) ?p)
        with (_handle_get_buttons env ws).
      unfold _handle_get_buttons.
      rewrite (run_bind_ok _ _ _ _ _ (run_is_authenticated ws info s Hget)).
      by rewrite Hunauth.
    + change (dispatch env ws (JStr (value GET_PROFILES)) ?p)
        with (_handle_get_profiles env ws).
      unfold _handle_get_profiles.
      rewrite (run_bind_ok _ _ _ _ _ (run_is_authenticated ws info s Hget)).
      by rewrite Hunauth.
    + change (dispatch env ws (JStr (value SWITCH_PROFILE)) ?p)
        with (_handle_switch_profile env ws p).
      unfold _handle_switch_profile.
      rewrite (run_bind_ok _ _ _ _ _ (run_is_authenticated ws info s Hget)).
      by rewrite Hunauth.
  - intros ->.
    change (dispatch env ws (JStr (value PONG)) ?p) with (_handle_pong env ws).
    unfold try_except, _handle_pong.
    rewrite (run_bind_ok _ _ _ _ _ (run_connections _)).
    rewrite (elem_of_dom_registry ws info s Hget).
    by rewrite (run_update_connection ws _ info s Hget).
  - intros Hother. unfold try_except. by rewrite dispatch_default.
Qed.

(** C6 (as amended). A handshake request whose token validates, on a
    registered connection that is not authenticated yet and whose socket
    accepts frames: the entry records the client version, becomes
    authenticated and gets as active profile its prior one when set,
    otherwise the default profile of the store when the store has one;
    with no profile in the store the active profile stays unset. The
    connection is sent [WELCOME], then [PROFILES_LIST], then the
    [BUTTONS_LIST] of that profile (the empty list when the profile is
    unset), and nothing else; no other entry changes. *)
Theorem handshake_with_valid_token ws info s fields pfields token :
  _connections s !! ws = Some info →
  is_authenticated info = false →
  dict_lookup "type" fields = Some (JStr (value HELLO)) →
  dict_lookup "payload" fields = Some (JObj pfields) →
  dict_lookup "token" pfields = Some (JStr token) →
  (Auth.validate_token (Some token) (auth_service env)).1 = true →
  (∀ m, send_ok env ws m = true) →
  let version := default (JStr "unknown") (dict_lookup "version" pfields) in
  let profile := bound_profile env (active_profile_id info) in
  let info' := set_active_profile_id profile
                 (set_is_authenticated true (set_client_version version info)) in
  handle_message env ws (Some (JObj fields)) s =
    (inr tt,
     {| _connections := <[ws := info']> (_connections s);
        wire := wire s ++
          [(ws, create_message WELCOME (JObj [("version", JStr PROTOCOL_VERSION)]));
           (ws, create_message PROFILES_LIST (profiles_payload env));
           (ws, buttons_list_for env profile)] |}).
Proof.
  intros Hget _ Htype Hpayload Htoken Hvalid Hsend version profile info'.
  rewrite run_handle_message_object, Htype, Hpayload. cbn [default from_option id].
  change (dispatch env ws (JStr (value HELLO)) ?p) with (_handle_hello env ws p).
  unfold try_except.
  by rewrite (run_handle_hello_valid env ws info s pfields token).
Qed.

End MessageClaims.

Lemma unauthenticated_dispatch_witness :
  let r := handle_message sample_env 3 (bare_message GET_BUTTONS) sample_registry in
  _connections r.2 = _connections sample_registry ∧
  wire r.2 = [(3%nat, error_frame "Not authenticated")].
Proof.
  destruct (unauthenticated_dispatch sample_env 3 (sample_info 3 false JNull)
              sample_registry [("type", JStr (value GET_BUTTONS))]
              (JStr (value GET_BUTTONS)))
    as (Hgated & _ & _); [reflexivity..|].
  destruct (Hgated GET_BUTTONS) as (Hconns & Hwire & _).
  - unfold gated_requests. rewrite !elem_of_cons. auto.
  - reflexivity.
  - split; [exact Hconns|exact Hwire].
Defined.

(** C2, as stated, fails: a [PONG] from the unauthenticated connection 3
    gets no error reply and moves the entry's [last_pong]. *)
Lemma pong_before_handshake_is_accepted :
  let r := handle_message sample_env 3 (bare_message PONG) sample_registry in
  is_authenticated <$> _connections sample_registry !! 3%nat = Some false ∧
  wire r.2 = [] ∧
  last_pong <$> _connections sample_registry !! 3%nat = Some 0%Q ∧
  last_pong <$> _connections r.2 !! 3%nat = Some 100%Q.
Proof. vm_compute. by split_and!. Qed.

Lemma handshake_with_valid_token_witness :
  handle_message sample_env 3 (hello_message session1) sample_registry =
    (inr tt,
     {| _connections :=
          <[3%nat := {| websocket := 3; client_version := JStr "1.0";
                        is_authenticated := true; active_profile_id := JStr "A";
                        connected_at := 0%Q; last_pong := 0%Q |}]>
            (_connections sample_registry);
        wire :=
          [(3%nat, create_message WELCOME (JObj [("version", JStr PROTOCOL_VERSION)]));
           (3%nat, create_message PROFILES_LIST (profiles_payload sample_env));
           (3%nat, buttons_list_frame sample_env (JStr "A"))] |}).
Proof.
  apply (handshake_with_valid_token sample_env 3 (sample_info 3 false JNull)
           sample_registry _ [("version", JStr "1.0"); ("token", JStr session1)] session1).
  - reflexivity.
  - reflexivity.
  - reflexivity.
  - reflexivity.
  - reflexivity.
  - vm_compute. reflexivity.
  - reflexivity.
Defined.

(** C6, as stated, fails when the store holds no profile: there is no
    default profile to bind, and the handshake with a valid token
    authenticates connection 3 with its active profile still unset; the
    buttons-list it is sent is the empty one. *)
Lemma handshake_without_default_profile :
  let r := handle_message fresh_install 3 (hello_message session1) sample_registry in
  (Auth.validate_token (Some session1) (auth_service fresh_install)).1 = true ∧
  profile_get_default_profile fresh_install = None ∧
  (is_authenticated <$> _connections sample_registry !! 3%nat) = Some false ∧
  (active_profile_id <$> _connections sample_registry !! 3%nat) = Some JNull ∧
  (is_authenticated <$> _connections r.2 !! 3%nat) = Some true ∧
  (active_profile_id <$> _connections r.2 !! 3%nat) = Some JNull ∧
  wire r.2 =
    [(3%nat, create_message WELCOME (JObj [("version", JStr PROTOCOL_VERSION)]));
     (3%nat, create_message PROFILES_LIST (JObj [("profiles", JArr [])]));
     (3%nat, create_message BUTTONS_LIST (JObj [("buttons", JArr [])]))].
Proof. vm_compute. by split_and!. Qed.

(** ** The authenticated flag along a run *)

Create HintDb keeping.

Section Keeping.

Variable strict : bool.

Lemma keeps_refl s : keeps strict s s.
Proof. split; [|done]. intros ws info' Hget. by exists info'. Qed.

Lemma keeps_trans s1 s2 s3 :
  keeps strict s1 s2 → keeps strict s2 s3 → keeps strict s1 s3.
Proof.
  intros [Hflag12 Hdom12] [Hflag23 Hdom23]. split.
  - intros ws info3 Hget3.
    destruct (Hflag23 ws info3 Hget3) as (info2 & Hget2 & Hup23).
    destruct (Hflag12 ws info2 Hget2) as (info1 & Hget1 & Hup12).
    exists info1. split; [done|]. auto.
  - intros Hstrict ws Hreg. apply Hdom23, Hdom12; done.
Qed.

(** Only the registry matters. *)
Lemma keeps_same_registry s s' :
  _connections s' = _connections s → keeps strict s s'.
Proof.
  intros Hsame. split.
  - intros ws info'. rewrite Hsame. intros Hget. by exists info'.
  - intros _ ws. unfold registered. by rewrite Hsame.
Qed.

Lemma keeps_update ws f info s w :
  _connections s !! ws = Some info → flag_safe f →
  keeps strict s {| _connections := <[ws := f info]> (_connections s); wire := w |}.
Proof.
  intros Hget Hsafe. split; simpl.
  - intros ws' info'. destruct (decide (ws = ws')) as [<-|Hne].
    + rewrite lookup_insert_eq. intros [= <-]. exists info. split; [done|]. apply Hsafe.
    + rewrite lookup_insert_ne by done. intros Hget'. by exists info'.
  - intros _ ws'. unfold registered. simpl. rewrite dom_insert.
    intros Hreg. apply elem_of_union. by right.
Qed.

Lemma keeps_alter ws f s w :
  flag_safe f →
  keeps strict s {| _connections := alter f ws (_connections s); wire := w |}.
Proof.
  intros Hsafe. split; simpl.
  - intros ws' info'. destruct (decide (ws = ws')) as [<-|Hne].
    + rewrite lookup_alter_eq.
      destruct (_connections s !! ws) as [info|] eqn:Hget; [|done].
      intros [= <-]. exists info. split; [done|]. apply Hsafe.
    + rewrite lookup_alter_ne by done. intros Hget'. by exists info'.
  - intros _ ws'. unfold registered. simpl. by rewrite dom_alter.
Qed.

Context {A B : Type}.

Lemma keeping_ret (a : A) : keeping strict (mret a).
Proof. intros s. apply keeps_refl. Qed.

Lemma keeping_raise (e : exn) : keeping strict (raise (A := A) e).
Proof. intros s. apply keeps_refl. Qed.

Lemma keeping_bind (c : M A) (f : A → M B) :
  keeping strict c → (∀ a, keeping strict (f a)) → keeping strict (c ≫= f).
Proof.
  intros Hc Hf s. rewrite run_bind. specialize (Hc s).
  destruct (c s) as [[e|a] s1]; [done|].
  eapply keeps_trans; [exact Hc|apply Hf].
Qed.

Lemma keeping_try_except (body : M A) (handler : exn → M A) :
  keeping strict body → (∀ e, keeping strict (handler e)) →
  keeping strict (try_except body handler).
Proof.
  intros Hbody Hhandler s. unfold try_except. specialize (Hbody s).
  destruct (body s) as [[e|a] s1]; [|done].
  eapply keeps_trans; [exact Hbody|apply Hhandler].
Qed.

End Keeping.

Section KeepingHandlers.

Variables (strict : bool) (env : Env).

Lemma keeping_when cond (body : M unit) :
  keeping strict body → keeping strict (when cond body).
Proof. intros Hbody. destruct cond; [done|apply keeping_ret]. Qed.

Lemma keeping_for_each {X : Type} (xs : list X) (body : X → M unit) :
  (∀ x, keeping strict (body x)) → keeping strict (for_each xs body).
Proof.
  intros Hbody. induction xs as [|x xs IH]; simpl.
  - apply keeping_ret.
  - apply keeping_bind; [apply Hbody|done].
Qed.

Lemma keeping_connections : keeping strict connections.
Proof. intros s. apply keeps_refl. Qed.

Lemma keeping_connection ws : keeping strict (connection ws).
Proof.
  intros s. unfold connection. rewrite run_bind. simpl.
  destruct (_connections s !! ws); apply keeps_refl.
Qed.

Lemma keeping_get_default d key default : keeping strict (get_default d key default).
Proof. intros s. destruct d; apply keeps_refl. Qed.

Lemma keeping_send_json ws m : keeping strict (send_json env ws m).
Proof.
  intros s. rewrite run_send_json.
  destruct (send_ok env ws m); by apply keeps_same_registry.
Qed.

Lemma keeping_update_connection ws f :
  flag_safe f → keeping strict (update_connection ws f).
Proof.
  intros Hsafe s. unfold update_connection.
  destruct (_connections s !! ws) as [info|] eqn:Hget.
  - rewrite (run_bind_ok _ _ _ _ _ (run_connection ws info s Hget)).
    by apply keeps_update.
  - erewrite run_bind_raise; [apply keeps_refl|].
    unfold connection. rewrite run_bind. simpl. by rewrite Hget.
Qed.

Lemma keeping_assign_through ws f :
  flag_safe f → keeping strict (assign_through ws f).
Proof. intros Hsafe s. by apply keeps_alter. Qed.

Lemma keeping_items : keeping strict items.
Proof. intros s. apply keeps_refl. Qed.

Lemma keeping_is_empty : keeping strict is_empty.
Proof. intros s. apply keeps_refl. Qed.

Lemma keeping_is_authenticated ws : keeping strict (_is_authenticated ws).
Proof. intros s. apply keeps_refl. Qed.

Lemma keeping_auth_validate_token token :
  keeping strict (auth_validate_token env token).
Proof. intros s. destruct token; apply keeps_refl. Qed.

Lemma flag_safe_client_version v : flag_safe (set_client_version v).
Proof. by intros info. Qed.

Lemma flag_safe_is_authenticated : flag_safe (set_is_authenticated true).
Proof. by intros info. Qed.

Lemma flag_safe_active_profile_id p : flag_safe (set_active_profile_id p).
Proof. by intros info. Qed.

Lemma flag_safe_last_pong t : flag_safe (set_last_pong t).
Proof. by intros info. Qed.

End KeepingHandlers.

#[local] Hint Resolve keeping_ret keeping_raise keeping_connections keeping_connection
  keeping_get_default keeping_send_json keeping_update_connection
  keeping_assign_through keeping_items keeping_is_empty keeping_is_authenticated
  keeping_auth_validate_token flag_safe_client_version flag_safe_is_authenticated
  flag_safe_active_profile_id flag_safe_last_pong : keeping.

(** One step of a proof that a handler only makes [keeps] moves: follow the
    control structure down to the primitives. *)
Ltac keeping_step :=
  lazymatch goal with
  | |- keeping _ (mbind _ _) => apply keeping_bind; [|intros ?]
  | |- keeping _ (when _ _) => apply keeping_when
  | |- keeping _ (try_except _ _) => apply keeping_try_except; [|intros ?]
  | |- keeping _ (try_pass _) => apply keeping_try_except; [|intros ?]
  | |- keeping _ (for_each _ _) => apply keeping_for_each; intros ?
  | |- keeping _ (if ?b then _ else _) => destruct b
  | |- keeping _ (match ?x with _ => _ end) => destruct x
  | |- keeping _ _ => first [solve [auto with keeping] | progress cbv beta iota]
  end.

Ltac keeping_auto := repeat keeping_step.

Section KeepingEntryPoints.

Variables (strict : bool) (env : Env).

Lemma keeping_send_error ws message : keeping strict (_send_error env ws message).
Proof. apply keeping_send_json. Qed.

Lemma keeping_send_buttons_list ws : keeping strict (_send_buttons_list env ws).
Proof. unfold _send_buttons_list. keeping_auto. Qed.

Lemma keeping_send_profiles_list ws : keeping strict (_send_profiles_list env ws).
Proof. apply keeping_send_json. Qed.

Hint Resolve keeping_send_error keeping_send_buttons_list
  keeping_send_profiles_list : keeping.

Lemma keeping_handle_hello ws payload : keeping strict (_handle_hello env ws payload).
Proof. unfold _handle_hello. keeping_auto. Qed.

Lemma keeping_handle_pong ws : keeping strict (_handle_pong env ws).
Proof. unfold _handle_pong. keeping_auto. Qed.

Lemma keeping_handle_button_pressed ws payload :
  keeping strict (_handle_button_pressed env ws payload).
Proof. unfold _handle_button_pressed. keeping_auto. Qed.

Lemma keeping_handle_get_buttons ws : keeping strict (_handle_get_buttons env ws).
Proof. unfold _handle_get_buttons. keeping_auto. Qed.

Lemma keeping_handle_get_profiles ws : keeping strict (_handle_get_profiles env ws).
Proof. unfold _handle_get_profiles. keeping_auto. Qed.

Lemma keeping_handle_switch_profile ws payload :
  keeping strict (_handle_switch_profile env ws payload).
Proof. unfold _handle_switch_profile. keeping_auto. Qed.

Hint Resolve keeping_handle_hello keeping_handle_pong keeping_handle_button_pressed
  keeping_handle_get_buttons keeping_handle_get_profiles
  keeping_handle_switch_profile : keeping.

Lemma keeping_dispatch ws msg_type payload :
  keeping strict (dispatch env ws msg_type payload).
Proof. unfold dispatch. keeping_auto. Qed.

Hint Resolve keeping_dispatch : keeping.

Lemma keeping_handle_message ws data : keeping strict (handle_message env ws data).
Proof. unfold handle_message. keeping_auto. Qed.

Lemma keeping_broadcast_stats stats : keeping strict (_broadcast_stats env stats).
Proof. unfold _broadcast_stats. keeping_auto. Qed.

Lemma keeping_broadcast_buttons_update profile_id :
  keeping strict (broadcast_buttons_update env profile_id).
Proof. unfold broadcast_buttons_update. keeping_auto. Qed.

Lemma keeping_broadcast_profiles_update :
  keeping strict (broadcast_profiles_update env).
Proof. unfold broadcast_profiles_update. keeping_auto. Qed.

Lemma keeping_broadcast_profile_switch profile_id :
  keeping strict (broadcast_profile_switch env profile_id).
Proof. unfold broadcast_profile_switch. keeping_auto. Qed.

End KeepingEntryPoints.

Section Removals.

Variable env : Env.

Lemma keeps_delete ws s w :
  keeps false s {| _connections := delete ws (_connections s); wire := w |}.
Proof.
  split; [|done]. simpl. intros ws' info' Hget.
  apply lookup_delete_Some in Hget as [_ Hget]. by exists info'.
Qed.

Lemma keeping_disconnect ws : keeping false (disconnect ws).
Proof.
  intros s. unfold disconnect. rewrite run_bind. simpl.
  case_bool_decide; [apply keeps_delete|apply keeps_refl].
Qed.

Lemma keeping_close_connection ws reason :
  keeping false (_close_connection ws reason).
Proof.
  intros s. unfold _close_connection. rewrite run_bind. simpl.
  case_bool_decide; [apply keeps_delete|apply keeps_refl].
Qed.

Hint Resolve keeping_close_connection : keeping.

Lemma keeping_send_ping_to_all : keeping false (_send_ping_to_all env).
Proof. unfold _send_ping_to_all. keeping_auto. Qed.

Lemma keeping_cleanup_stale_connections :
  keeping false (_cleanup_stale_connections env).
Proof. unfold _cleanup_stale_connections. keeping_auto. Qed.

(** [connect] on a socket that has no entry leaves the others alone. *)
Lemma connect_other ws ws' s :
  ws ≠ ws' →
  _connections (connect env ws s).2 !! ws' = _connections s !! ws'.
Proof.
  intros Hne. unfold connect. rewrite run_bind.
  destruct (accept_ok env ws); simpl; [|done].
  by rewrite lookup_insert_ne.
Qed.

End Removals.

(** Every entry point but [connect] makes a [keeps] move; those that remove
    nothing make a strict one. *)
Lemma keeps_run env o s :
  (∀ ws, o ≠ Connect ws) → keeps false s (run env o s).2.
Proof.
  intros Hop. destruct o; simpl.
  - by destruct (Hop ws).
  - apply keeping_disconnect.
  - apply keeping_handle_message.
  - apply keeping_broadcast_buttons_update.
  - apply keeping_broadcast_profiles_update.
  - apply keeping_broadcast_profile_switch.
  - apply keeping_broadcast_stats.
  - apply keeping_send_ping_to_all.
  - apply keeping_cleanup_stale_connections.
Qed.

Lemma keeps_run_strict env o s :
  (∀ ws, o ≠ Connect ws) → removes o = false → keeps true s (run env o s).2.
Proof.
  intros Hop Hremoves. destruct o; simpl; try discriminate Hremoves.
  - by destruct (Hop ws).
  - apply keeping_handle_message.
  - apply keeping_broadcast_buttons_update.
  - apply keeping_broadcast_profiles_update.
  - apply keeping_broadcast_profile_switch.
  - apply keeping_broadcast_stats.
Qed.

Lemma connect_or_not (o : op) : (∃ ws0, o = Connect ws0) ∨ (∀ ws0, o ≠ Connect ws0).
Proof. destruct o; first [left; by eexists | by right]. Qed.

Lemma authenticated_registered ws s : authenticated ws s → registered ws s.
Proof. intros (info & Hget & _). apply elem_of_dom. by eexists. Qed.

(** One step: an authenticated connection is authenticated afterwards or
    has no entry any more. *)
Lemma step_authenticated ws s s' :
  step s s' → authenticated ws s → registered ws s' → authenticated ws s'.
Proof.
  intros (env & o & Hadm & ->) Hauth Hreg.
  destruct (connect_or_not o) as [[ws0 ->]|Hop].
  - simpl in *. destruct Hauth as (info & Hget & Hflag).
    exists info. split; [|done]. rewrite connect_other; [done|].
    intros ->. apply Hadm. apply elem_of_dom. by eexists.
  - destruct (keeps_run env o s Hop) as [Hflags _].
    unfold registered in Hreg. apply elem_of_dom in Hreg as [info' Hget'].
    destruct (Hflags ws info' Hget') as (info & Hget & Hup).
    destruct Hauth as (info0 & Hget0 & Hflag0).
    exists info'. split; [done|]. apply Hup. congruence.
Qed.

(** An entry only leaves the registry through [disconnect], the ping round
    (a socket that refuses the ping is closed) or the liveness sweep. *)
Lemma removal_needs_remover env o ws s :
  admissible o s → registered ws s → ¬ registered ws (run env o s).2 →
  removes o = true.
Proof.
  intros Hadm Hreg Hgone. destruct (removes o) eqn:Hremoves; [done|exfalso].
  apply Hgone. destruct (connect_or_not o) as [[ws0 ->]|Hop].
  - simpl in *. unfold registered in *. apply elem_of_dom in Hreg as [info Hget].
    apply elem_of_dom. exists info. rewrite connect_other; [done|].
    intros ->. apply Hadm. apply elem_of_dom. by eexists.
  - destruct (keeps_run_strict env o s Hop Hremoves) as [_ Hdom]. by apply Hdom.
Qed.

(** C7. Along any sequence of entry points of the handler (messages handled
    for any connection, broadcasts, ping rounds and liveness sweeps,
    connections and disconnections of other sockets), a connection that is
    authenticated is still authenticated after the sequence, provided it has
    had its entry after every step: the flag is lost only together with the
    entry. *)
Theorem authenticated_until_removed ws s s' :
  rtc (step_keeping ws) s s' → authenticated ws s → authenticated ws s'.
Proof.
  induction 1 as [s|s1 s2 s3 [Hstep Hreg] _ IH]; [done|].
  intros Hauth. apply IH. by apply (step_authenticated ws s1 s2).
Qed.


Lemma authenticated_until_removed_witness :
  authenticated 1
    (run sample_env (BroadcastProfileSwitch "B")
       (run sample_env (HandleMessage 1 (hello_message session2)) sample_registry).2).2.
Proof.
  apply (authenticated_until_removed 1 sample_registry).
  - eapply rtc_l; [|eapply rtc_l; [|apply rtc_refl]].
    + split.
      * exists sample_env, (HandleMessage 1 (hello_message session2)).
        split; [exact I|reflexivity].
      * unfold registered. apply elem_of_dom. eexists. reflexivity.
    + split.
      * exists sample_env, (BroadcastProfileSwitch "B").
        split; [exact I|reflexivity].
      * unfold registered. apply elem_of_dom. eexists. reflexivity.
  - exists (sample_info 1 true (JStr "A")). split; reflexivity.
Defined.

(** * Further properties of the token service *)

Section AuthFurther.

Import Auth.

Implicit Types (s : AuthService) (t fresh : string) (q : QRToken) (now : Q).

(** Popping a batch of keys: the keys of the batch are gone, the others are
    as before. *)
Lemma lookup_pop_batch (m : gmap string QRToken) (l : list (string * QRToken)) t :
  foldl (λ m kv, delete kv.1 m) m l !! t = if decide (t ∈ l.*1) then None else m !! t.
Proof.
  revert m. induction l as [|[k v] l IH]; intros m; simpl; [done|].
  rewrite IH. destruct (decide (t ∈ l.*1)) as [Hin|Hout].
  - rewrite decide_True; [done|]. by apply elem_of_cons; right.
  - destruct (decide (t = k)) as [->|Hne].
    + rewrite decide_True by apply list_elem_of_here. apply lookup_delete_eq.
    + rewrite decide_False, lookup_delete_ne; [done..|].
      rewrite elem_of_cons. by intros [?|?].
Qed.

Lemma size_pop_batch (m : gmap string QRToken) (l : list (string * QRToken)) :
  NoDup l.*1 → (∀ kv, kv ∈ l → is_Some (m !! kv.1)) →
  (size (foldl (λ m kv, delete kv.1 m) m l) + length l = size m)%nat.
Proof.
  revert m. induction l as [|[k v] l IH]; intros m Hnodup Hin; simpl.
  - lia.
  - rewrite fmap_cons in Hnodup. apply NoDup_cons in Hnodup as [Hfresh Hnodup].
    rewrite Nat.add_succ_r, IH; [| done |].
    + assert (is_Some (m !! k)) as Hk by apply (Hin (k, v)), list_elem_of_here.
      rewrite map_size_delete_Some by done.
      apply map_size_ne_0_lookup_2 in Hk.
      destruct (size m); [done|]. simpl. lia.
    + intros [k' v'] Hkv. simpl. rewrite lookup_delete_ne.
      * apply (Hin (k', v')). by apply elem_of_cons; right.
      * intros ->. apply Hfresh. apply list_elem_of_fmap. by exists (k', v').
Qed.

Lemma issue_qr_token_stored now0 t ttl expiry s :
  float_add_int now0 (default DEFAULT_QR_TTL_SECONDS ttl) = inr expiry →
  (issue_qr_token now0 t ttl s).1 = inr t ∧
  _qr_tokens (issue_qr_token now0 t ttl s).2 !! t =
    Some {| token := t; expires_at := expiry; used := false |}.
Proof.
  intros Hsum. unfold issue_qr_token.
  assert ((match ttl with Some n => n | None => DEFAULT_QR_TTL_SECONDS end)
          = default DEFAULT_QR_TTL_SECONDS ttl) as -> by by destruct ttl.
  rewrite Hsum. simpl. by rewrite lookup_insert_eq.
Qed.

Lemma issue_qr_token_raised now0 t ttl e s :
  float_add_int now0 (default DEFAULT_QR_TTL_SECONDS ttl) = inl e →
  (issue_qr_token now0 t ttl s).1 = inl e ∧
  _current_qr_token (issue_qr_token now0 t ttl s).2 = _current_qr_token s.
Proof.
  intros Hsum. unfold issue_qr_token.
  assert ((match ttl with Some n => n | None => DEFAULT_QR_TTL_SECONDS end)
          = default DEFAULT_QR_TTL_SECONDS ttl) as -> by by destruct ttl.
  by rewrite Hsum.
Qed.

Lemma exchange_after_issue now0 t ttl expiry now1 fresh s :
  float_add_int now0 (default DEFAULT_QR_TTL_SECONDS ttl) = inr expiry →
  (exchange_qr_token now1 fresh t (issue_qr_token now0 t ttl s).2).1 =
    if float_gt now1 expiry then Rejected Expired else Session fresh.
Proof.
  intros Hsum.
  destruct (issue_qr_token_stored now0 t ttl expiry s Hsum) as [_ Hget].
  unfold exchange_qr_token. rewrite Hget. unfold past. simpl.
  by destruct (float_gt now1 expiry).
Qed.

(** The default TTL converts to a double exactly, so the sum with it never
    raises. *)
Lemma float_add_default_ttl now0 :
  float_add_int now0 DEFAULT_QR_TTL_SECONDS =
    inr (round_double (Qred (Qplus now0 (inject_Z DEFAULT_QR_TTL_SECONDS)))).
Proof. reflexivity. Qed.

(** The sum is rounded: a token issued at clock 0.1 (the double nearest
    to it) with the default TTL expires at the double nearest to 60.1,
    which is above the exact sum, and is still exchanged at that clock. *)
Lemma rounded_expiry_is_exchangeable :
  let t0 := (3602879701896397 # 36028797018963968)%Q in
  let t1 := (8458323050155213 # 140737488355328)%Q in
  float_add_int t0 DEFAULT_QR_TTL_SECONDS = inr (Fnum t1) ∧
  Qlt (Qplus t0 (inject_Z DEFAULT_QR_TTL_SECONDS)) t1 ∧
  (exchange_qr_token t1 session1 qr1 (issue_qr_token t0 qr1 None (init ∅)).2).1
    = Session session1.
Proof. vm_compute. by split_and!. Qed.

(** A TTL beyond the range of doubles: the issue raises once the current
    token has been popped, and stores nothing. *)
Lemma issue_overflow_pops_current :
  let s := (issue_qr_token 0 qr1 None (init ∅)).2 in
  let r := issue_qr_token 5 qr2 (Some (10 ^ 400)%Z) s in
  _qr_tokens s !! qr1 ≠ None ∧
  r.1 = inl OverflowError ∧
  _qr_tokens r.2 !! qr1 = None ∧ _qr_tokens r.2 !! qr2 = None ∧
  _current_qr_token r.2 = Some qr1.
Proof. vm_compute. by split_and!. Qed.

(** X1. A QR token exchanged right after [issue_qr_token(ttl)], with
    nothing in between, whatever the state the token was issued in. The
    expiry stored is the double-precision sum [time.time() + ttl_seconds]:
    the exchange yields a session token unless the clock is past that
    double, and is rejected as expired otherwise. When the conversion of
    [ttl_seconds] to a double raises, so does [issue_qr_token], and the
    current QR token is the one it was. *)
Theorem qr_exchange_window now0 t ttl now1 fresh s :
  let issued := issue_qr_token now0 t ttl s in
  match float_add_int now0 (default DEFAULT_QR_TTL_SECONDS ttl) with
  | inr expiry =>
      issued.1 = inr t ∧
      (exchange_qr_token now1 fresh t issued.2).1 =
        if float_gt now1 expiry then Rejected Expired else Session fresh
  | inl e =>
      issued.1 = inl e ∧ _current_qr_token issued.2 = _current_qr_token s
  end.
Proof.
  intros issued. subst issued.
  destruct (float_add_int now0 _) as [e|expiry] eqn:Hsum.
  - by apply issue_qr_token_raised.
  - split.
    + by apply (issue_qr_token_stored now0 t ttl expiry s).
    + by apply exchange_after_issue.
Qed.

(** X2. In a running service no entry of the QR map is marked used, so no
    exchange is ever rejected as "already used". *)
Theorem already_used_unreachable s now fresh t :
  reachable s → (exchange_qr_token now fresh t s).1 ≠ Rejected AlreadyUsed.
Proof.
  intros Hreach. apply reachable_qr_inv in Hreach. unfold exchange_qr_token.
  destruct (_qr_tokens s !! t) as [q|] eqn:Hget; [|done].
  destruct (Hreach _ _ Hget) as (_ & _ & _ & ->).
  by destruct (past now q).
Qed.

Lemma already_used_unreachable_witness :
  (exchange_qr_token 1 session1 qr1 (issue_qr_token 0 qr1 None (init ∅)).2).1
    ≠ Rejected AlreadyUsed.
Proof.
  apply (already_used_unreachable (issue_qr_token 0 qr1 None (init ∅)).2 1 session1 qr1).
  exists ∅. apply (reachable_call ∅ (IssueQrToken 0 qr1 None)).
  - apply reachable_init.
  - reflexivity.
Defined.

(** X3. A rejected exchange creates no session: the token set and the token
    file are as before; the QR map loses the exchanged key when the
    rejection is an expiry and is unchanged otherwise. *)
Theorem rejected_exchange_creates_no_session s now fresh t why :
  (exchange_qr_token now fresh t s).1 = Rejected why →
  let s' := (exchange_qr_token now fresh t s).2 in
  _tokens s' = _tokens s ∧
  token_store s' = token_store s ∧
  _current_qr_token s' = _current_qr_token s ∧
  _qr_tokens s' =
    match why with Expired => delete t (_qr_tokens s) | _ => _qr_tokens s end.
Proof.
  unfold exchange_qr_token.
  destruct (_qr_tokens s !! t) as [q|]; [|by intros [= <-]].
  destruct (used q); [by intros [= <-]|].
  destruct (past now q); [by intros [= <-]|done].
Qed.

Lemma rejected_exchange_creates_no_session_witness :
  let s := (issue_qr_token 0 qr1 (Some 30%Z) (init {[session1]})).2 in
  let s' := (exchange_qr_token 31 session2 qr1 s).2 in
  _tokens s' = _tokens s ∧
  token_store s' = token_store s ∧
  _current_qr_token s' = _current_qr_token s ∧
  _qr_tokens s' = delete qr1 (_qr_tokens s).
Proof.
  apply (rejected_exchange_creates_no_session
           (issue_qr_token 0 qr1 (Some 30%Z) (init {[session1]})).2
           31 session2 qr1 Expired).
  reflexivity.
Defined.

(** X4. At most one QR token is exchangeable at a time: the QR map of a
    running service has at most one entry, the current token. *)
Theorem at_most_one_qr_token s :
  reachable s →
  (size (_qr_tokens s) ≤ 1)%nat ∧
  ∀ t q, _qr_tokens s !! t = Some q → _current_qr_token s = Some t.
Proof.
  intros Hreach. apply reachable_qr_inv in Hreach. split.
  - destruct (map_choose_or_empty (_qr_tokens s)) as [(t & q & Hget)|Hempty].
    + assert (delete t (_qr_tokens s) = ∅) as Hrest.
      { apply map_empty. intros t'. apply eq_None_not_Some. intros [q' Hget'].
        apply lookup_delete_Some in Hget' as [Hne Hget'].
        destruct (Hreach _ _ Hget) as (Hcur & _).
        destruct (Hreach _ _ Hget') as (Hcur' & _). congruence. }
      assert (size (delete t (_qr_tokens s)) = 0) as Hsize by by rewrite Hrest.
      rewrite map_size_delete_Some in Hsize by by eexists.
      destruct (size (_qr_tokens s)) as [|[|n]]; simpl in Hsize; lia.
    + rewrite Hempty, map_size_empty. lia.
  - intros t q Hget. by destruct (Hreach _ _ Hget).
Qed.

Lemma at_most_one_qr_token_witness :
  let s := (issue_qr_token 5 qr2 None (issue_qr_token 0 qr1 None (init ∅)).2).2 in
  (size (_qr_tokens s) ≤ 1)%nat ∧
  ∀ t q, _qr_tokens s !! t = Some q → _current_qr_token s = Some t.
Proof.
  apply (at_most_one_qr_token
           (issue_qr_token 5 qr2 None (issue_qr_token 0 qr1 None (init ∅)).2).2).
  exists ∅. apply (reachable_call ∅ (IssueQrToken 5 qr2 None)).
  - apply (reachable_call ∅ (IssueQrToken 0 qr1 None)).
    + apply reachable_init.
    + reflexivity.
  - reflexivity.
Defined.

(** The token file always mirrors the token set. *)
Lemma token_store_mirrors_tokens stored s :
  reachable_from stored s → token_store s = _tokens s.
Proof.
  induction 1 as [|c s _ IH Hdraw]; [done|].
  destruct c as [fresh|tok|t|now fresh ttl|now fresh qr|now]; simpl.
  - done.
  - by destruct tok.
  - unfold revoke_token. by case_bool_decide.
  - destruct (issue_qr_token_session_tokens now fresh ttl s) as [-> ->]. done.
  - unfold exchange_qr_token.
    destruct (_qr_tokens s !! qr) as [q|]; [|done].
    destruct (used q); [done|]. by destruct (past now q).
  - done.
Qed.

(** X5. Session tokens survive a restart: a service built again from the
    token file validates exactly the tokens the running one does. *)
Theorem restart_keeps_session_tokens stored s tok :
  reachable_from stored s →
  (validate_token tok (init (token_store s))).1 = (validate_token tok s).1.
Proof.
  intros Hreach. destruct tok as [t|]; simpl; [|done].
  by rewrite (token_store_mirrors_tokens stored s Hreach).
Qed.

Lemma restart_keeps_session_tokens_witness :
  let s := (revoke_token session1
              (exchange_qr_token 1 session2 qr1
                 (issue_qr_token 0 qr1 None (init {[session1]})).2).2).2 in
  (validate_token (Some session2) (init (token_store s))).1
    = (validate_token (Some session2) s).1.
Proof.
  apply (restart_keeps_session_tokens {[session1]}).
  apply (reachable_call _ (RevokeToken session1)); [|exact I].
  apply (reachable_call _ (ExchangeQrToken 1 session2 qr1)); [|reflexivity].
  apply (reachable_call _ (IssueQrToken 0 qr1 None)); [|reflexivity].
  apply reachable_init.
Defined.

(** X6. [cleanup_expired_qr_tokens] removes exactly the entries past their
    expiry and returns how many they were; session tokens and the current
    token are not touched. *)
Theorem cleanup_expired_qr_tokens_exact now s :
  let r := cleanup_expired_qr_tokens now s in
  (∀ t, _qr_tokens r.2 !! t =
          match _qr_tokens s !! t with
          | Some q => if past now q then None else Some q
          | None => None
          end) ∧
  (r.1 + size (_qr_tokens r.2) = size (_qr_tokens s))%nat ∧
  _tokens r.2 = _tokens s ∧
  _current_qr_token r.2 = _current_qr_token s.
Proof.
  simpl. split_and!; [| |done..].
  - intros t. rewrite lookup_pop_batch.
    destruct (_qr_tokens s !! t) as [q|] eqn:Hget.
    + destruct (past now q) eqn:Hpast.
      * rewrite decide_True; [done|]. apply list_elem_of_fmap.
        exists (t, q). split; [done|]. apply list_elem_of_filter.
        split; [done|]. by apply elem_of_map_to_list.
      * rewrite decide_False; [done|]. intros Hin.
        apply list_elem_of_fmap in Hin as ([t' q'] & -> & Hin).
        apply list_elem_of_filter in Hin as [Hpast' Hin]. simpl in *.
        apply elem_of_map_to_list in Hin. congruence.
    + case_decide as Hin; [|done].
      apply list_elem_of_fmap in Hin as ([t' q'] & -> & Hin).
      apply list_elem_of_filter in Hin as [_ Hin].
      apply elem_of_map_to_list in Hin. simpl in *. congruence.
  - rewrite Nat.add_comm. apply size_pop_batch.
    + apply (sublist_NoDup _ (map_to_list (_qr_tokens s)).*1).
      * apply NoDup_fst_map_to_list.
      * apply fmap_sublist, sublist_filter.
    + intros [t q] Hin. apply list_elem_of_filter in Hin as [_ Hin].
      apply elem_of_map_to_list in Hin. simpl. by eexists.
Qed.

End AuthFurther.

Section SessionTokens.

Import Auth.

(** X7. A session token has no expiry: once in the token set it stays
    valid through any sequence of calls that does not revoke it, QR
    issuing, exchanges and sweeps included. *)
Theorem session_token_valid_until_revoked (calls : list call) (s : AuthService) t :
  t ∈ _tokens s → RevokeToken t ∉ calls →
  (validate_token (Some t) (foldl (λ s c, exec c s) s calls)).1 = true.
Proof.
  revert s. induction calls as [|c calls IH]; intros s Hin Hnot; simpl.
  - by apply bool_decide_eq_true.
  - apply IH.
    + destruct c as [fresh|tok|t'|now fresh ttl|now fresh qr|now]; simpl.
      * apply elem_of_union. by right.
      * by destruct tok.
      * unfold revoke_token. case_bool_decide; simpl; [|done].
        apply elem_of_difference. split; [done|].
        rewrite elem_of_singleton. intros ->. apply Hnot, list_elem_of_here.
      * by destruct (issue_qr_token_session_tokens now fresh ttl s) as [-> _].
      * unfold exchange_qr_token.
        destruct (_qr_tokens s !! qr) as [q|]; [|done].
        destruct (used q); [done|]. destruct (past now q); simpl; [done|].
        apply elem_of_union. by right.
      * done.
    + intros Hin'. apply Hnot. by apply elem_of_cons; right.
Qed.

Lemma session_token_valid_until_revoked_witness :
  (validate_token (Some session1)
     (foldl (λ s c, exec c s) (init {[session1]})
        [IssueQrToken 0 qr1 None; ExchangeQrToken 1 session2 qr1;
         RevokeToken session2; CleanupExpiredQrTokens 100])).1 = true.
Proof.
  apply (session_token_valid_until_revoked _ (init {[session1]}) session1).
  - simpl. by apply elem_of_singleton.
  - rewrite !elem_of_cons. intros [H|[H|[H|[H|H]]]]; try discriminate H.
    by apply elem_of_nil in H.
Defined.

End SessionTokens.

(** * Further properties of the handler *)

(** ** The other pushes *)

Section Pushes.

Variable env : Env.

Lemma alter_id_registry ws (m : gmap WebSocket ConnectionInfo) : alter id ws m = m.
Proof.
  apply map_eq. intros k. rewrite lookup_alter.
  case_decide; [subst|done]. by destruct (m !! k).
Qed.

Lemma pushed_id_registry sel (m : gmap WebSocket ConnectionInfo) :
  pushed sel id <$> m = m.
Proof.
  apply map_eq. intros ws. rewrite lookup_fmap.
  destruct (m !! ws) as [info|]; [|done]. simpl. unfold pushed.
  by destruct (sel info).
Qed.

Lemma run_broadcast_profiles_update s :
  broadcast_profiles_update env s =
    (inr tt,
     foldl (push_effect is_authenticated id
              (λ ws _, accepted env ws [profiles_list_frame env]))
           s (map_to_list (_connections s))).
Proof.
  unfold broadcast_profiles_update.
  rewrite run_bind, run_is_empty. simpl.
  case_bool_decide as Hempty.
  { rewrite Hempty, map_to_list_empty. reflexivity. }
  rewrite run_bind, run_items. simpl.
  apply for_each_fold. intros [ws info] s1. unfold push_effect. simpl.
  destruct (is_authenticated info); [|done].
  rewrite run_try_pass_send1. by rewrite alter_id_registry.
Qed.

Lemma run_broadcast_stats stats s :
  _broadcast_stats env stats s =
    (inr tt,
     foldl (push_effect is_authenticated id
              (λ ws _, accepted env ws [stats_frame stats]))
           s (map_to_list (_connections s))).
Proof.
  unfold _broadcast_stats.
  rewrite run_bind, run_is_empty. simpl.
  case_bool_decide as Hempty.
  { rewrite Hempty, map_to_list_empty. reflexivity. }
  rewrite run_bind, run_items. simpl.
  apply for_each_fold. intros [ws info] s1. unfold push_effect. simpl.
  destruct (is_authenticated info); [|done].
  rewrite run_try_pass_send1. by rewrite alter_id_registry.
Qed.

(** Without a usable profile id the target of an iteration is the entry's
    own active profile. *)
Lemma run_broadcast_buttons_update_own profile_id s :
  profile_id = None ∨ profile_id = Some "" →
  broadcast_buttons_update env profile_id s =
    (inr tt,
     foldl (push_effect has_profile id
              (λ ws info, accepted env ws
                            [buttons_list_frame env (active_profile_id info)]))
           s (map_to_list (_connections s))).
Proof.
  intros Hnone. unfold broadcast_buttons_update.
  rewrite run_bind, run_is_empty. simpl.
  case_bool_decide as Hempty.
  { rewrite Hempty, map_to_list_empty. reflexivity. }
  rewrite run_bind, run_items. simpl.
  apply for_each_fold. intros [ws info] s1. unfold push_effect, has_profile. simpl.
  assert (py_or (of_opt_str profile_id) (active_profile_id info)
          = active_profile_id info) as ->.
  { by destruct Hnone as [->| ->]. }
  destruct (is_authenticated info); simpl; [|done].
  destruct (truthy (active_profile_id info)); simpl; [|done].
  rewrite run_try_pass_send1. by rewrite alter_id_registry.
Qed.

(** What a push loop described by [push_effect] with no assignment does. *)
Lemma push_only sel msgs s :
  let s' := foldl (push_effect sel id msgs) s (map_to_list (_connections s)) in
  _connections s' = _connections s ∧
  ∃ new, wire s' = wire s ++ new ∧
    ∀ ws, frames_to ws new =
      match _connections s !! ws with
      | Some info => if sel info then msgs ws info else []
      | None => []
      end.
Proof.
  split.
  - by rewrite push_snapshot_connections, pushed_id_registry.
  - pose proof (push_effect_wire sel id msgs (map_to_list (_connections s)) s) as Hwire.
    eexists. split; [exact Hwire|]. intros ws.
    rewrite pushed_frames_to by apply NoDup_fst_map_to_list.
    by rewrite list_to_map_to_list.
Qed.

(** X8. [broadcast_profiles_update] never raises and leaves the registry
    as it is; every authenticated connection is sent the [PROFILES_LIST]
    frame (if its socket accepts it) and nothing else, every other
    connection nothing. *)
Theorem broadcast_profiles_update_exact s :
  let r := broadcast_profiles_update env s in
  r.1 = inr tt ∧
  _connections r.2 = _connections s ∧
  ∃ new, wire r.2 = wire s ++ new ∧
    ∀ ws, frames_to ws new =
      match _connections s !! ws with
      | Some info =>
          if is_authenticated info
          then accepted env ws [profiles_list_frame env]
          else []
      | None => []
      end.
Proof.
  intros r. subst r. rewrite run_broadcast_profiles_update.
  split; [done|]. apply push_only.
Qed.

(** X9. [_broadcast_stats] never raises and leaves the registry as it is;
    every authenticated connection is sent the [SYSTEM_STATS] frame of the
    snapshot (if its socket accepts it), every other connection nothing. *)
Theorem broadcast_stats_exact stats s :
  let r := _broadcast_stats env stats s in
  r.1 = inr tt ∧
  _connections r.2 = _connections s ∧
  ∃ new, wire r.2 = wire s ++ new ∧
    ∀ ws, frames_to ws new =
      match _connections s !! ws with
      | Some info =>
          if is_authenticated info then accepted env ws [stats_frame stats] else []
      | None => []
      end.
Proof.
  intros r. subst r. rewrite run_broadcast_stats.
  split; [done|]. apply push_only.
Qed.

(** X10. [broadcast_buttons_update] without a profile id (or with the empty
    string) sends each authenticated connection the [BUTTONS_LIST] of that
    connection's own active profile; a connection that is not authenticated
    or has no active profile is sent nothing; the registry is unchanged. *)
Theorem broadcast_buttons_update_own profile_id s :
  profile_id = None ∨ profile_id = Some "" →
  let r := broadcast_buttons_update env profile_id s in
  r.1 = inr tt ∧
  _connections r.2 = _connections s ∧
  ∃ new, wire r.2 = wire s ++ new ∧
    ∀ ws, frames_to ws new =
      match _connections s !! ws with
      | Some info =>
          if has_profile info
          then accepted env ws [buttons_list_frame env (active_profile_id info)]
          else []
      | None => []
      end.
Proof.
  intros Hnone r. subst r. rewrite run_broadcast_buttons_update_own by done.
  split; [done|]. apply push_only.
Qed.

End Pushes.

Lemma broadcast_buttons_update_own_witness :
  let r := broadcast_buttons_update sample_env None sample_registry in
  r.1 = inr tt ∧
  _connections r.2 = _connections sample_registry ∧
  ∃ new, wire r.2 = wire sample_registry ++ new ∧
    ∀ ws, frames_to ws new =
      match _connections sample_registry !! ws with
      | Some info =>
          if has_profile info
          then accepted sample_env ws
                 [buttons_list_frame sample_env (active_profile_id info)]
          else []
      | None => []
      end.
Proof.
  apply (broadcast_buttons_update_own sample_env None sample_registry).
  by left.
Defined.

(** ** The heartbeat *)

Section Sweeps.

Variables (drop : WebSocket → ConnectionInfo → bool)
          (msgs : WebSocket → ConnectionInfo → list json).

Lemma sweep_effect_lookup (l : list (WebSocket * ConnectionInfo)) s ws :
  NoDup l.*1 →
  _connections (foldl (sweep_effect drop msgs) s l) !! ws =
    match (list_to_map l : gmap WebSocket ConnectionInfo) !! ws with
    | Some info => if drop ws info then None else _connections s !! ws
    | None => _connections s !! ws
    end.
Proof.
  revert s. induction l as [|[ws' info'] l IH]; intros s Hnodup; [done|].
  rewrite fmap_cons in Hnodup. apply NoDup_cons in Hnodup as [Hfresh Hnodup].
  cbn [foldl]. rewrite IH, list_to_map_cons by done. cbn [fst snd].
  destruct (decide (ws' = ws)) as [->|Hne].
  - rewrite lookup_insert_eq.
    rewrite (not_elem_of_list_to_map_1 (M := gmap WebSocket)) by done.
    unfold sweep_effect. simpl. destruct (drop ws info'); [|done].
    apply lookup_delete_eq.
  - rewrite lookup_insert_ne by done.
    assert (_connections (sweep_effect drop msgs s (ws', info')) !! ws
            = _connections s !! ws) as ->; [|done].
    unfold sweep_effect. simpl. destruct (drop ws' info'); [|done].
    by apply lookup_delete_ne.
Qed.

Lemma sweep_effect_wire (l : list (WebSocket * ConnectionInfo)) s :
  wire (foldl (sweep_effect drop msgs) s l) =
    wire s ++ concat ((λ entry, (λ m, (entry.1, m)) <$> msgs entry.1 entry.2) <$> l).
Proof.
  revert s. induction l as [|entry l IH]; intros s.
  - simpl. by rewrite app_nil_r.
  - cbn [foldl]. rewrite IH. simpl. by rewrite <- app_assoc.
Qed.

Lemma swept_frames_to (l : list (WebSocket * ConnectionInfo)) ws :
  NoDup l.*1 →
  frames_to ws
    (concat ((λ entry, (λ m, (entry.1, m)) <$> msgs entry.1 entry.2) <$> l)) =
    match (list_to_map l : gmap WebSocket ConnectionInfo) !! ws with
    | Some info => msgs ws info
    | None => []
    end.
Proof. intros Hnodup. exact (pushed_frames_to (λ _, true) msgs l ws Hnodup). Qed.

(** Over the snapshot of the registry itself. *)
Lemma sweep_snapshot s :
  let s' := foldl (sweep_effect drop msgs) s (map_to_list (_connections s)) in
  (∀ ws, _connections s' !! ws =
           match _connections s !! ws with
           | Some info => if drop ws info then None else Some info
           | None => None
           end) ∧
  ∃ new, wire s' = wire s ++ new ∧
    ∀ ws, frames_to ws new =
      match _connections s !! ws with
      | Some info => msgs ws info
      | None => []
      end.
Proof.
  split.
  - intros ws. rewrite sweep_effect_lookup by apply NoDup_fst_map_to_list.
    rewrite list_to_map_to_list.
    destruct (_connections s !! ws) as [info|]; [|done]. by destruct (drop ws info).
  - eexists. split; [apply sweep_effect_wire|]. intros ws.
    rewrite swept_frames_to by apply NoDup_fst_map_to_list.
    by rewrite list_to_map_to_list.
Qed.

End Sweeps.

Lemma foldl_keys {S : Type} (g : S → WebSocket → S)
    (h : S → WebSocket * ConnectionInfo → S) (l : list (WebSocket * ConnectionInfo)) s :
  (∀ s entry, h s entry = g s entry.1) → foldl g s l.*1 = foldl h s l.
Proof.
  intros Hgh. revert s. induction l as [|entry l IH]; intros s; [done|].
  rewrite fmap_cons. cbn [foldl]. by rewrite IH, Hgh.
Qed.

Lemma concat_no_frames (l : list (WebSocket * ConnectionInfo)) :
  concat ((λ entry, (λ m : json, (entry.1, m)) <$> []) <$> l) = [].
Proof. induction l as [|entry l IH]; [done|]. by rewrite fmap_cons. Qed.

Section Heartbeat.

Variable env : Env.

Lemma run_close_connection ws reason s :
  _close_connection ws reason s =
    (inr tt, {| _connections := delete ws (_connections s); wire := wire s |}).
Proof.
  unfold _close_connection. rewrite run_bind. simpl.
  case_bool_decide as Hin; simpl; [done|].
  rewrite delete_id; [by destruct s|]. by apply not_elem_of_dom.
Qed.

Lemma run_send_ping_to_all s :
  _send_ping_to_all env s =
    (inr tt,
     foldl (sweep_effect (λ ws _, negb (send_ok env ws ping_frame))
                         (λ ws _, accepted env ws [ping_frame]))
           s (map_to_list (_connections s))).
Proof.
  unfold _send_ping_to_all.
  rewrite run_bind, run_is_empty. simpl.
  case_bool_decide as Hempty.
  { rewrite Hempty, map_to_list_empty. reflexivity. }
  rewrite run_bind, run_items. simpl.
  rewrite <- (foldl_keys
    (λ s ws, {| _connections :=
                  if negb (send_ok env ws ping_frame)
                  then delete ws (_connections s) else _connections s;
                wire := wire s ++ ((λ m, (ws, m)) <$> accepted env ws [ping_frame]) |}))
    by done.
  apply for_each_fold. intros ws s1.
  unfold try_except. rewrite run_send_json. fold ping_frame. simpl.
  destruct (send_ok env ws ping_frame); simpl; [done|].
  by rewrite run_close_connection, app_nil_r.
Qed.

Lemma run_cleanup_stale_connections s :
  _cleanup_stale_connections env s =
    (inr tt,
     foldl (sweep_effect (λ _ info, stale env info) (λ _ _, []))
           s (map_to_list (_connections s))).
Proof.
  unfold _cleanup_stale_connections.
  rewrite run_bind, run_items. simpl.
  apply for_each_fold. intros [ws info] s1. unfold sweep_effect. simpl.
  destruct (stale env info).
  - by rewrite run_close_connection, app_nil_r.
  - rewrite app_nil_r. by destruct s1.
Qed.

(** X11. The ping round never raises. A connection whose socket accepts
    the [PING] frame is sent that frame, once, and keeps its entry as it
    is; a connection whose socket refuses it is sent nothing and loses its
    entry. Authenticated or not makes no difference. *)
Theorem send_ping_to_all_exact s :
  let r := _send_ping_to_all env s in
  r.1 = inr tt ∧
  (∀ ws, _connections r.2 !! ws =
           match _connections s !! ws with
           | Some info => if send_ok env ws ping_frame then Some info else None
           | None => None
           end) ∧
  ∃ new, wire r.2 = wire s ++ new ∧
    ∀ ws, frames_to ws new =
      match _connections s !! ws with
      | Some _ => if send_ok env ws ping_frame then [ping_frame] else []
      | None => []
      end.
Proof.
  intros r. subst r. rewrite run_send_ping_to_all. split; [done|].
  destruct (sweep_snapshot (λ ws _, negb (send_ok env ws ping_frame))
              (λ ws _, accepted env ws [ping_frame]) s) as [Hconns Hwire].
  split.
  - intros ws. rewrite Hconns.
    destruct (_connections s !! ws); [|done].
    by destruct (send_ok env ws ping_frame).
  - exact Hwire.
Qed.

Lemma cleanup_stale_connections_silent s :
  wire (_cleanup_stale_connections env s).2 = wire s.
Proof.
  rewrite run_cleanup_stale_connections. simpl.
  rewrite sweep_effect_wire, concat_no_frames. apply app_nil_r.
Qed.

Lemma cleanup_stale_connections_lookup s ws :
  _connections (_cleanup_stale_connections env s).2 !! ws =
    match _connections s !! ws with
    | Some info => if stale env info then None else Some info
    | None => None
    end.
Proof.
  rewrite run_cleanup_stale_connections.
  apply (sweep_snapshot (λ _ info, stale env info) (λ _ _, []) s).
Qed.

(** X12. The liveness sweep never raises and sends no frame; it removes
    exactly the entries whose last pong is more than [PONG_TIMEOUT_SECONDS]
    old and leaves the others as they are. *)
Theorem cleanup_stale_connections_exact s :
  let r := _cleanup_stale_connections env s in
  r.1 = inr tt ∧
  wire r.2 = wire s ∧
  ∀ ws, _connections r.2 !! ws =
          match _connections s !! ws with
          | Some info => if stale env info then None else Some info
          | None => None
          end.
Proof.
  intros r. subst r. rewrite run_cleanup_stale_connections. split; [done|].
  split.
  - simpl. rewrite sweep_effect_wire, concat_no_frames. apply app_nil_r.
  - apply (sweep_snapshot (λ _ info, stale env info) (λ _ _, []) s).
Qed.

End Heartbeat.

Lemma run_handle_message_pong env ws info fields s :
  _connections s !! ws = Some info →
  dict_lookup "type" fields = Some (JStr (value PONG)) →
  handle_message env ws (Some (JObj fields)) s =
    (inr tt,
     {| _connections := <[ws := set_last_pong (now env) info]> (_connections s);
        wire := wire s |}).
Proof.
  intros Hget Htype.
  rewrite run_handle_message_object, Htype. cbn [default from_option id].
  change (dispatch env ws (JStr (value PONG)) ?p) with (_handle_pong env ws).
  unfold try_except, _handle_pong.
  rewrite (run_bind_ok _ _ _ _ _ (run_connections _)).
  rewrite (elem_of_dom_registry ws info s Hget).
  by rewrite (run_update_connection ws _ info s Hget).
Qed.

(** X13. A connection that answers a ping is not closed by a sweep that
    runs at most [PONG_TIMEOUT_SECONDS] after the pong was handled; its
    entry is the one the pong left. *)
Theorem prompt_pong_survives_sweep env0 env1 ws info fields s :
  _connections s !! ws = Some info →
  dict_lookup "type" fields = Some (JStr (value PONG)) →
  Qle (Qminus (now env1) (now env0)) (inject_Z PONG_TIMEOUT_SECONDS) →
  _connections
    (_cleanup_stale_connections env1
       (handle_message env0 ws (Some (JObj fields)) s).2).2 !! ws
    = Some (set_last_pong (now env0) info).
Proof.
  intros Hget Htype Hrecent.
  rewrite (run_handle_message_pong env0 ws info fields s Hget Htype). simpl.
  rewrite cleanup_stale_connections_lookup. simpl. rewrite lookup_insert_eq.
  unfold stale. simpl. apply Qle_bool_iff in Hrecent. by rewrite Hrecent.
Qed.

Lemma prompt_pong_survives_sweep_witness :
  _connections
    (_cleanup_stale_connections sample_env
       (handle_message sample_env 3 (bare_message PONG) sample_registry).2).2 !! 3%nat
    = Some (set_last_pong 100%Q (sample_info 3 false JNull)).
Proof.
  apply (prompt_pong_survives_sweep sample_env sample_env 3
           (sample_info 3 false JNull) [("type", JStr (value PONG))] sample_registry).
  - reflexivity.
  - reflexivity.
  - vm_compute. discriminate.
Defined.

(** ** Registration *)

Lemma run_disconnect ws s :
  disconnect ws s =
    (inr tt, {| _connections := delete ws (_connections s); wire := wire s |}).
Proof.
  unfold disconnect. rewrite run_bind. simpl.
  case_bool_decide as Hin; simpl; [done|].
  rewrite delete_id; [by destruct s|]. by apply not_elem_of_dom.
Qed.

(** X14. [disconnect] never raises, removes the entry of the socket and
    nothing else, and sends nothing; calling it again changes nothing. *)
Theorem disconnect_idempotent ws s :
  let r := disconnect ws s in
  r.1 = inr tt ∧
  _connections r.2 = delete ws (_connections s) ∧
  wire r.2 = wire s ∧
  disconnect ws r.2 = (inr tt, r.2).
Proof.
  intros r. subst r. rewrite !run_disconnect. simpl. split_and!; [done..|].
  by rewrite delete_delete_eq.
Qed.

(** X15. A socket that connects and disconnects without a message in
    between leaves the handler exactly as it was before the socket
    came. *)
Theorem connect_disconnect_roundtrip env ws s :
  ws ∉ dom (_connections s) → accept_ok env ws = true →
  connect env ws s =
    (inr tt,
     {| _connections :=
          <[ws := {| websocket := ws; client_version := JNull;
                     is_authenticated := false; active_profile_id := JNull;
                     connected_at := now env; last_pong := now env |}]> (_connections s);
        wire := wire s |}) ∧
  disconnect ws (connect env ws s).2 = (inr tt, s).
Proof.
  intros Hfresh Haccept.
  assert (connect env ws s =
    (inr tt,
     {| _connections :=
          <[ws := {| websocket := ws; client_version := JNull;
                     is_authenticated := false; active_profile_id := JNull;
                     connected_at := now env; last_pong := now env |}]> (_connections s);
        wire := wire s |})) as Hconnect.
  { unfold connect. rewrite run_bind, Haccept. reflexivity. }
  split; [done|]. rewrite Hconnect. simpl.
  unfold disconnect. rewrite run_bind. simpl.
  rewrite bool_decide_eq_true_2.
  - simpl. rewrite delete_insert_eq, delete_id; [by destruct s|].
    by apply not_elem_of_dom.
  - rewrite dom_insert. apply elem_of_union. left. by apply elem_of_singleton.
Qed.

Lemma connect_disconnect_roundtrip_witness :
  connect sample_env 7 sample_registry =
    (inr tt,
     {| _connections :=
          <[7%nat := {| websocket := 7; client_version := JNull;
                        is_authenticated := false; active_profile_id := JNull;
                        connected_at := 100%Q; last_pong := 100%Q |}]>
            (_connections sample_registry);
        wire := [] |}) ∧
  disconnect 7 (connect sample_env 7 sample_registry).2 = (inr tt, sample_registry).
Proof.
  apply (connect_disconnect_roundtrip sample_env 7 sample_registry).
  - apply not_elem_of_dom. reflexivity.
  - reflexivity.
Defined.

(** ** Frames that are not requests *)

(** X16. A frame that does not decode, or decodes to something that is not
    an object, is answered with one error frame ("Invalid JSON", or the text
    of the failed attribute access) and changes nothing, whoever sent it;
    if the socket refuses that frame the exception escapes. *)
Theorem malformed_frame env ws data s :
  (∀ fields, data ≠ Some (JObj fields)) →
  handle_message env ws data s =
    (if send_ok env ws (error_frame (malformed_text env data))
     then inr tt else inl (SendError ws),
     {| _connections := _connections s;
        wire := wire s ++ ((λ m, (ws, m)) <$>
                  accepted env ws [error_frame (malformed_text env data)]) |}).
Proof.
  intros Hmalformed. unfold handle_message, try_except.
  assert (∀ text, _send_error env ws text s =
            (if send_ok env ws (error_frame text) then inr tt else inl (SendError ws),
             {| _connections := _connections s;
                wire := wire s ++ ((λ m, (ws, m)) <$> accepted env ws [error_frame text]) |}))
    as Hsend.
  { intros text. unfold _send_error. fold (error_frame text). rewrite run_send_json.
    simpl. destruct (send_ok env ws (error_frame text)); [done|].
    rewrite app_nil_r. by destruct s. }
  destruct data as [[| | | | |fields]|]; simpl; try apply Hsend.
  by destruct (Hmalformed fields).
Qed.

Lemma malformed_frame_witness :
  handle_message sample_env 3 (Some (JArr [JNum 1])) sample_registry =
    (inr tt,
     {| _connections := _connections sample_registry;
        wire := [(3%nat, error_frame "error")] |}).
Proof.
  apply (malformed_frame sample_env 3 (Some (JArr [JNum 1])) sample_registry).
  intros fields. discriminate.
Defined.

(** ** One connection's messages concern that connection alone *)

Create HintDb local_to.

Section Locality.

Variable ws : WebSocket.

Lemma touches_only_refl s : touches_only ws s s.
Proof.
  split; [done|]. exists []. split; [by rewrite app_nil_r|constructor].
Qed.

Lemma touches_only_trans s1 s2 s3 :
  touches_only ws s1 s2 → touches_only ws s2 s3 → touches_only ws s1 s3.
Proof.
  intros [Hconns12 (new12 & Hwire12 & Hto12)] [Hconns23 (new23 & Hwire23 & Hto23)].
  split.
  - intros ws' Hne. by rewrite Hconns23, Hconns12.
  - exists (new12 ++ new23). split.
    + by rewrite Hwire23, Hwire12, app_assoc.
    + by apply Forall_app.
Qed.

Context {A B : Type}.

Lemma local_ret (a : A) : local_to ws (mret a).
Proof. intros s. apply touches_only_refl. Qed.

Lemma local_raise (e : exn) : local_to ws (raise (A := A) e).
Proof. intros s. apply touches_only_refl. Qed.

Lemma local_bind (c : M A) (f : A → M B) :
  local_to ws c → (∀ a, local_to ws (f a)) → local_to ws (c ≫= f).
Proof.
  intros Hc Hf s. rewrite run_bind. specialize (Hc s).
  destruct (c s) as [[e|a] s1]; [done|].
  eapply touches_only_trans; [exact Hc|apply Hf].
Qed.

Lemma local_try_except (body : M A) (handler : exn → M A) :
  local_to ws body → (∀ e, local_to ws (handler e)) →
  local_to ws (try_except body handler).
Proof.
  intros Hbody Hhandler s. unfold try_except. specialize (Hbody s).
  destruct (body s) as [[e|a] s1]; [|done].
  eapply touches_only_trans; [exact Hbody|apply Hhandler].
Qed.

End Locality.

Section LocalityHandlers.

Variables (env : Env) (ws : WebSocket).

Lemma local_when cond (body : M unit) :
  local_to ws body → local_to ws (when cond body).
Proof. intros Hbody. destruct cond; [done|apply local_ret]. Qed.

Lemma local_connections : local_to ws connections.
Proof. intros s. apply touches_only_refl. Qed.

Lemma local_connection : local_to ws (connection ws).
Proof.
  intros s. unfold connection. rewrite run_bind. simpl.
  destruct (_connections s !! ws); apply touches_only_refl.
Qed.

Lemma local_get_default d key default : local_to ws (get_default d key default).
Proof. intros s. destruct d; apply touches_only_refl. Qed.

Lemma local_is_authenticated : local_to ws (_is_authenticated ws).
Proof. intros s. apply touches_only_refl. Qed.

Lemma local_auth_validate_token token : local_to ws (auth_validate_token env token).
Proof. intros s. destruct token; apply touches_only_refl. Qed.

Lemma local_send_json m : local_to ws (send_json env ws m).
Proof.
  intros s. rewrite run_send_json.
  destruct (send_ok env ws m); [|apply touches_only_refl].
  split; [done|]. exists [(ws, m)]. split; [done|]. by repeat constructor.
Qed.

Lemma local_update_connection f : local_to ws (update_connection ws f).
Proof.
  intros s. unfold update_connection.
  destruct (_connections s !! ws) as [info|] eqn:Hget.
  - rewrite (run_bind_ok _ _ _ _ _ (run_connection ws info s Hget)). simpl.
    split; simpl.
    + intros ws' Hne. by rewrite lookup_insert_ne.
    + exists []. split; [by rewrite app_nil_r|constructor].
  - erewrite run_bind_raise; [apply touches_only_refl|].
    unfold connection. rewrite run_bind. simpl. by rewrite Hget.
Qed.

End LocalityHandlers.

#[local] Hint Resolve local_ret local_raise local_connections local_connection
  local_get_default local_is_authenticated local_auth_validate_token
  local_send_json local_update_connection : local_to.

Ltac local_step :=
  lazymatch goal with
  | |- local_to _ (mbind _ _) => apply local_bind; [|intros ?]
  | |- local_to _ (when _ _) => apply local_when
  | |- local_to _ (try_except _ _) => apply local_try_except; [|intros ?]
  | |- local_to _ (if ?b then _ else _) => destruct b
  | |- local_to _ (match ?x with _ => _ end) => destruct x
  | |- local_to _ _ => first [solve [auto with local_to] | progress cbv beta iota]
  end.

Ltac local_auto := repeat local_step.

Section LocalityClaims.

Variables (env : Env) (ws : WebSocket).

Lemma local_send_error message : local_to ws (_send_error env ws message).
Proof. apply local_send_json. Qed.

Lemma local_send_buttons_list : local_to ws (_send_buttons_list env ws).
Proof. unfold _send_buttons_list. local_auto. Qed.

Lemma local_send_profiles_list : local_to ws (_send_profiles_list env ws).
Proof. apply local_send_json. Qed.

Hint Resolve local_send_error local_send_buttons_list local_send_profiles_list
  : local_to.

Lemma local_dispatch msg_type payload : local_to ws (dispatch env ws msg_type payload).
Proof.
  unfold dispatch, _handle_hello, _handle_button_pressed, _handle_get_buttons,
    _handle_get_profiles, _handle_switch_profile, _handle_pong.
  local_auto.
Qed.

Hint Resolve local_dispatch : local_to.

(** X17. Whatever frame a connection sends, handling it changes no other
    connection's entry and sends frames to no other connection. *)
Theorem handle_message_is_local data s :
  let s' := (handle_message env ws data s).2 in
  (∀ ws', ws' ≠ ws → _connections s' !! ws' = _connections s !! ws') ∧
  ∃ new, wire s' = wire s ++ new ∧ ∀ ws', ws' ≠ ws → frames_to ws' new = [].
Proof.
  assert (local_to ws (handle_message env ws data)) as Hlocal.
  { unfold handle_message. local_auto. }
  destruct (Hlocal s) as [Hconns (new & Hwire & Hto)].
  split; [done|]. exists new. split; [done|].
  intros ws' Hne. clear Hwire.
  induction Hto as [|[ws0 m] new Hws0 _ IH]; [done|].
  simpl in Hws0. subst ws0. by rewrite frames_to_cons_other.
Qed.

End LocalityClaims.

(** ** Requests of one connection *)

Section Requests.

Variable env : Env.

Lemma run_auth_validate_token_refused token s :
  token_refused env token → auth_validate_token env token s = (inr false, s).
Proof.
  destruct token as [| | |t| |]; simpl; try done.
  intros Hrefused. unfold auth_validate_token. by rewrite run_ret, Hrefused.
Qed.

Lemma run_send_error_ok ws message s :
  send_ok env ws (error_frame message) = true →
  _send_error env ws message s =
    (inr tt, {| _connections := _connections s;
                wire := wire s ++ [(ws, error_frame message)] |}).
Proof. intros Hok. unfold _send_error. by apply run_send_json_ok. Qed.

(** X18. A handshake whose token does not validate (absent, null, not a
    string, or a string that is not stored) is answered with
    [AUTH_REQUIRED] alone; the entry records the client version and is
    otherwise as before: not authenticated by this message, no profile
    bound. *)
Theorem handshake_refused ws info s fields pfields :
  _connections s !! ws = Some info →
  dict_lookup "type" fields = Some (JStr (value HELLO)) →
  default (JObj []) (dict_lookup "payload" fields) = JObj pfields →
  token_refused env (default JNull (dict_lookup "token" pfields)) →
  send_ok env ws auth_required_frame = true →
  let version := default (JStr "unknown") (dict_lookup "version" pfields) in
  handle_message env ws (Some (JObj fields)) s =
    (inr tt,
     {| _connections := <[ws := set_client_version version info]> (_connections s);
        wire := wire s ++ [(ws, auth_required_frame)] |}).
Proof.
  intros Hget Htype Hpayload Hrefused Hsend version.
  rewrite run_handle_message_object, Htype, Hpayload. cbn [default from_option id].
  change (dispatch env ws (JStr (value HELLO)) ?p) with (_handle_hello env ws p).
  unfold try_except, _handle_hello.
  rewrite (run_bind_ok _ _ _ _ _ (run_get_default _ _ _ _)).
  rewrite (run_bind_ok _ _ _ _ _ (run_get_default _ _ _ _)).
  rewrite (run_bind_ok _ _ _ _ _ (run_connections _)).
  rewrite (elem_of_dom_registry ws info s Hget). cbn [when].
  rewrite (run_bind_ok _ _ _ _ _ (run_update_connection ws _ info s Hget)).
  rewrite (run_bind_ok _ _ _ _ _ (run_auth_validate_token_refused _ _ Hrefused)).
  fold auth_required_frame. by rewrite (run_send_json_ok env _ _ _ Hsend).
Qed.

(** X19. A [SWITCH_PROFILE] request of an authenticated connection that
    names a profile the store knows: the connection's active profile
    becomes that profile, and the connection is sent the [BUTTONS_LIST] of
    the new profile and then [PROFILE_SWITCHED], in that order. *)
Theorem switch_profile_accepted ws info s fields pfields profile_id p :
  _connections s !! ws = Some info →
  is_authenticated info = true →
  dict_lookup "type" fields = Some (JStr (value SWITCH_PROFILE)) →
  dict_lookup "payload" fields = Some (JObj pfields) →
  dict_lookup "profileId" pfields = Some profile_id →
  truthy profile_id = true →
  profile_get_by_id env profile_id = Some p →
  (∀ m, send_ok env ws m = true) →
  handle_message env ws (Some (JObj fields)) s =
    (inr tt,
     {| _connections := <[ws := set_active_profile_id profile_id info]> (_connections s);
        wire := wire s ++
          [(ws, buttons_list_frame env profile_id);
           (ws, create_message PROFILE_SWITCHED (JObj [("profileId", profile_id)]))] |}).
Proof.
  intros Hget Hauth Htype Hpayload Hid Htruthy Hknown Hsend.
  rewrite run_handle_message_object, Htype, Hpayload. cbn [default from_option id].
  change (dispatch env ws (JStr (value SWITCH_PROFILE)) ?p)
    with (_handle_switch_profile env ws p).
  unfold try_except, _handle_switch_profile.
  rewrite (run_bind_ok _ _ _ _ _ (run_is_authenticated ws info s Hget)).
  rewrite Hauth. cbn [negb].
  rewrite (run_bind_ok _ _ _ _ _ (run_get_default _ _ _ _)).
  rewrite Hid. cbn [default from_option id]. rewrite Htruthy, Hknown. cbn [negb].
  rewrite (run_bind_ok _ _ _ _ _ (run_update_connection ws _ info s Hget)).
  erewrite (run_bind_ok (_send_buttons_list env ws)); cycle 1.
  { erewrite run_send_buttons_list by (simpl; apply lookup_insert_eq).
    apply run_send_json_ok, Hsend. }
  rewrite (run_send_json_ok env _ _ _ (Hsend _)). simpl.
  unfold buttons_list_for. rewrite Htruthy. by rewrite <- app_assoc.
Qed.

(** X20. A [SWITCH_PROFILE] request of an authenticated connection that
    names no profile, or one the store does not know, is answered with one
    error frame and changes nothing. *)
Theorem switch_profile_refused ws info s fields pfields :
  _connections s !! ws = Some info →
  is_authenticated info = true →
  dict_lookup "type" fields = Some (JStr (value SWITCH_PROFILE)) →
  default (JObj []) (dict_lookup "payload" fields) = JObj pfields →
  let profile_id := default JNull (dict_lookup "profileId" pfields) in
  truthy profile_id = false ∨ profile_get_by_id env profile_id = None →
  send_ok env ws (switch_refusal env profile_id) = true →
  handle_message env ws (Some (JObj fields)) s =
    (inr tt,
     {| _connections := _connections s;
        wire := wire s ++ [(ws, switch_refusal env profile_id)] |}).
Proof.
  intros Hget Hauth Htype Hpayload profile_id Hbad Hsend.
  rewrite run_handle_message_object, Htype, Hpayload. cbn [default from_option id].
  change (dispatch env ws (JStr (value SWITCH_PROFILE)) ?p)
    with (_handle_switch_profile env ws p).
  unfold try_except, _handle_switch_profile.
  rewrite (run_bind_ok _ _ _ _ _ (run_is_authenticated ws info s Hget)).
  rewrite Hauth. cbn [negb].
  rewrite (run_bind_ok _ _ _ _ _ (run_get_default _ _ _ _)).
  fold profile_id. unfold switch_refusal in *.
  destruct (truthy profile_id) eqn:Htruthy; cbn [negb] in *.
  - destruct Hbad as [?|Hunknown]; [done|]. rewrite Hunknown.
    by rewrite (run_send_error_ok _ _ _ Hsend).
  - by rewrite (run_send_error_ok _ _ _ Hsend).
Qed.

(** X21. A [BUTTON_PRESSED] request of an authenticated connection changes
    nothing in the registry and is answered with exactly one frame: the
    [ACTION_RESULT] of executing the button that the request's id names in
    the connection's own active profile, or an error frame when the id is
    missing, no profile is active or that profile has no such button. *)
Theorem button_pressed_answered ws info s fields pfields :
  _connections s !! ws = Some info →
  is_authenticated info = true →
  dict_lookup "type" fields = Some (JStr (value BUTTON_PRESSED)) →
  default (JObj []) (dict_lookup "payload" fields) = JObj pfields →
  (∀ m, send_ok env ws m = true) →
  let button_id := default JNull (dict_lookup "buttonId" pfields) in
  let reply := button_pressed_reply env (active_profile_id info) button_id in
  handle_message env ws (Some (JObj fields)) s =
    (inr tt, {| _connections := _connections s; wire := wire s ++ [(ws, reply)] |}) ∧
  (is_error_frame reply ∨
   ∃ button,
     truthy button_id = true ∧ truthy (active_profile_id info) = true ∧
     button_get_by_id env button_id (active_profile_id info) = Some button ∧
     reply = create_message ACTION_RESULT (execute_action env button)).
Proof.
  intros Hget Hauth Htype Hpayload Hsend button_id reply. split.
  - rewrite run_handle_message_object, Htype, Hpayload. cbn [default from_option id].
    change (dispatch env ws (JStr (value BUTTON_PRESSED)) ?p)
      with (_handle_button_pressed env ws p).
    unfold try_except, _handle_button_pressed.
    rewrite (run_bind_ok _ _ _ _ _ (run_is_authenticated ws info s Hget)).
    rewrite Hauth. cbn [negb].
    rewrite (run_bind_ok _ _ _ _ _ (run_get_default _ _ _ _)).
    rewrite (run_bind_ok _ _ _ _ _ (run_connection ws info s Hget)).
    fold button_id. subst reply. unfold button_pressed_reply.
    destruct (truthy button_id); cbn [negb];
      [|by rewrite (run_send_error_ok _ _ _ (Hsend _))].
    destruct (truthy (active_profile_id info)); cbn [negb];
      [|by rewrite (run_send_error_ok _ _ _ (Hsend _))].
    destruct (button_get_by_id env button_id (active_profile_id info)).
    + by rewrite (run_send_json_ok env _ _ _ (Hsend _)).
    + by rewrite (run_send_error_ok _ _ _ (Hsend _)).
  - subst reply. unfold button_pressed_reply.
    destruct (truthy button_id); cbn [negb]; [|by left].
    destruct (truthy (active_profile_id info)); cbn [negb]; [|by left].
    destruct (button_get_by_id env button_id (active_profile_id info)) as [button|];
      [|by left].
    right. by exists button.
Qed.

End Requests.

Lemma handshake_refused_witness :
  handle_message sample_env 3 (hello_message session2) sample_registry =
    (inr tt,
     {| _connections :=
          <[3%nat := set_client_version (JStr "1.0") (sample_info 3 false JNull)]>
            (_connections sample_registry);
        wire := [(3%nat, auth_required_frame)] |}).
Proof.
  apply (handshake_refused sample_env 3 (sample_info 3 false JNull) sample_registry
           _ [("version", JStr "1.0"); ("token", JStr session2)]).
  - reflexivity.
  - reflexivity.
  - reflexivity.
  - vm_compute. reflexivity.
  - reflexivity.
Defined.

Lemma switch_profile_accepted_witness :
  handle_message sample_env 1
    (Some (JObj [("type", JStr (value SWITCH_PROFILE));
                 ("payload", JObj [("profileId", JStr "B")])])) sample_registry =
    (inr tt,
     {| _connections :=
          <[1%nat := set_active_profile_id (JStr "B") (sample_info 1 true (JStr "A"))]>
            (_connections sample_registry);
        wire :=
          [(1%nat, buttons_list_frame sample_env (JStr "B"));
           (1%nat, create_message PROFILE_SWITCHED (JObj [("profileId", JStr "B")]))] |}).
Proof.
  apply (switch_profile_accepted sample_env 1 (sample_info 1 true (JStr "A"))
           sample_registry _ [("profileId", JStr "B")] (JStr "B") profile_b);
    reflexivity.
Defined.

Lemma switch_profile_refused_witness :
  handle_message sample_env 1
    (Some (JObj [("type", JStr (value SWITCH_PROFILE));
                 ("payload", JObj [("profileId", JStr "Z")])])) sample_registry =
    (inr tt,
     {| _connections := _connections sample_registry;
        wire := [(1%nat, error_frame "Profile not found: Z")] |}).
Proof.
  apply (switch_profile_refused sample_env 1 (sample_info 1 true (JStr "A"))
           sample_registry _ [("profileId", JStr "Z")]).
  - reflexivity.
  - reflexivity.
  - reflexivity.
  - reflexivity.
  - right. reflexivity.
  - reflexivity.
Defined.

Lemma button_pressed_answered_witness :
  let reply :=
    create_message ACTION_RESULT
      (JObj [("buttonId", JStr "play"); ("status", JStr "success");
             ("message", JStr "Media action executed: MEDIA_PLAY_PAUSE")]) in
  handle_message sample_env_with_button 1
    (Some (JObj [("type", JStr (value BUTTON_PRESSED));
                 ("payload", JObj [("buttonId", JStr "play")])])) sample_registry =
    (inr tt,
     {| _connections := _connections sample_registry; wire := [(1%nat, reply)] |}) ∧
  (is_error_frame reply ∨
   ∃ button,
     truthy (JStr "play") = true ∧ truthy (JStr "A") = true ∧
     button_get_by_id sample_env_with_button (JStr "play") (JStr "A") = Some button ∧
     reply = create_message ACTION_RESULT (execute_action sample_env_with_button button)).
Proof.
  apply (button_pressed_answered sample_env_with_button 1 (sample_info 1 true (JStr "A"))
           sample_registry _ [("buttonId", JStr "play")]); reflexivity.
Defined.

(** ** Data goes to authenticated connections only *)

Lemma keeps_strict_authenticated ws s s' :
  keeps true s s' → authenticated ws s → authenticated ws s'.
Proof.
  intros [Hflags Hdom] Hauth.
  pose proof (Hdom eq_refl ws (authenticated_registered ws s Hauth)) as Hreg.
  unfold registered in Hreg. apply elem_of_dom in Hreg as [info' Hget'].
  destruct (Hflags ws info' Hget') as (info & Hget & Hup).
  destruct Hauth as (info0 & Hget0 & Hflag0).
  exists info'. split; [done|]. apply Hup. congruence.
Qed.

Lemma discreet_refl s : discreet s s.
Proof.
  split; [apply keeps_refl|]. exists []. split; [by rewrite app_nil_r|constructor].
Qed.

Lemma discreet_trans s1 s2 s3 : discreet s1 s2 → discreet s2 s3 → discreet s1 s3.
Proof.
  intros [Hkeeps12 (new12 & Hwire12 & Hok12)] [Hkeeps23 (new23 & Hwire23 & Hok23)].
  split; [by apply (keeps_trans true s1 s2 s3)|].
  exists (new12 ++ new23). split; [by rewrite Hwire23, Hwire12, app_assoc|].
  apply Forall_app. split; [|done].
  eapply Forall_impl; [exact Hok12|]. intros [ws m] [Hharmless|Hauth]; [by left|].
  right. by apply (keeps_strict_authenticated ws s2 s3).
Qed.

(** A move without frames that keeps entries and flags is discreet. *)
Lemma discreet_silent s s' : keeps true s s' → wire s' = wire s → discreet s s'.
Proof.
  intros Hkeeps Hwire. split; [done|].
  exists []. split; [by rewrite app_nil_r|constructor].
Qed.

(** What concerns an authenticated connection alone is discreet. *)
Lemma discreet_when_authenticated {A : Type} ws (c : M A) s :
  local_to ws c → keeping true c → authenticated ws s → discreet s (c s).2.
Proof.
  intros Hlocal Hkeeping Hauth. split; [apply Hkeeping|].
  destruct (Hlocal s) as [_ (new & Hwire & Hto)].
  exists new. split; [done|].
  eapply Forall_impl; [exact Hto|]. intros [ws' m] Hws'. simpl in Hws'. subst ws'.
  right. apply (keeps_strict_authenticated ws s); [apply Hkeeping|done].
Qed.

Create HintDb modest.

Section Modest.

Context {A B : Type}.

Lemma modest_ret (a : A) : modest (mret a).
Proof. intros s. apply discreet_refl. Qed.

Lemma modest_raise (e : exn) : modest (raise (A := A) e).
Proof. intros s. apply discreet_refl. Qed.

Lemma modest_bind (c : M A) (f : A → M B) :
  modest c → (∀ a, modest (f a)) → modest (c ≫= f).
Proof.
  intros Hc Hf s. rewrite run_bind. specialize (Hc s).
  destruct (c s) as [[e|a] s1]; [done|].
  eapply discreet_trans; [exact Hc|apply Hf].
Qed.

Lemma modest_try_except (body : M A) (handler : exn → M A) :
  modest body → (∀ e, modest (handler e)) → modest (try_except body handler).
Proof.
  intros Hbody Hhandler s. unfold try_except. specialize (Hbody s).
  destruct (body s) as [[e|a] s1]; [|done].
  eapply discreet_trans; [exact Hbody|apply Hhandler].
Qed.

End Modest.

Section ModestHandlers.

Variable env : Env.

Lemma modest_when cond (body : M unit) : modest body → modest (when cond body).
Proof. intros Hbody. destruct cond; [done|apply modest_ret]. Qed.

Lemma modest_connections : modest connections.
Proof. intros s. apply discreet_refl. Qed.

Lemma modest_get_default d key default : modest (get_default d key default).
Proof. intros s. destruct d; apply discreet_refl. Qed.

Lemma modest_auth_validate_token token : modest (auth_validate_token env token).
Proof. intros s. destruct token; apply discreet_refl. Qed.

Lemma modest_update_connection ws f : flag_safe f → modest (update_connection ws f).
Proof.
  intros Hsafe s. apply discreet_silent.
  - by apply keeping_update_connection.
  - unfold update_connection.
    destruct (_connections s !! ws) as [info|] eqn:Hget.
    + by rewrite (run_bind_ok _ _ _ _ _ (run_connection ws info s Hget)).
    + erewrite run_bind_raise; [done|].
      unfold connection. rewrite run_bind. simpl. by rewrite Hget.
Qed.

Lemma modest_send_harmless ws m : harmless m → modest (send_json env ws m).
Proof.
  intros Hharmless s. split; [apply keeping_send_json|].
  rewrite run_send_json. destruct (send_ok env ws m); simpl.
  - exists [(ws, m)]. split; [done|]. constructor; [by left|constructor].
  - exists []. split; [by rewrite app_nil_r|constructor].
Qed.

Lemma harmless_error_frame message : harmless (error_frame message).
Proof. exists ERROR. split; [|done]. rewrite !elem_of_cons. auto. Qed.

Lemma modest_send_error ws message : modest (_send_error env ws message).
Proof. apply modest_send_harmless, harmless_error_frame. Qed.

(** A handler that answers a connection only once it has found it
    authenticated. *)
Lemma modest_gate ws (refuse rest : M unit) :
  modest refuse → local_to ws rest → keeping true rest →
  modest (_is_authenticated ws ≫= λ authenticated,
            if negb authenticated then refuse else rest).
Proof.
  intros Hrefuse Hlocal Hkeeping s. rewrite run_bind. simpl.
  destruct (_connections s !! ws) as [info|] eqn:Hget; [|apply Hrefuse].
  destruct (is_authenticated info) eqn:Hflag; [|apply Hrefuse].
  apply (discreet_when_authenticated ws); [done..|]. by exists info.
Qed.

(** What follows the assignment [is_authenticated = True]. *)
Lemma modest_after_login ws (rest : M unit) :
  local_to ws rest → keeping true rest →
  modest (update_connection ws (set_is_authenticated true) ;; rest).
Proof.
  intros Hlocal Hkeeping s.
  destruct (_connections s !! ws) as [info|] eqn:Hget.
  - rewrite (run_bind_ok _ _ _ _ _ (run_update_connection ws _ info s Hget)).
    eapply discreet_trans.
    + apply (discreet_silent s
        {| _connections := <[ws := set_is_authenticated true info]> (_connections s);
           wire := wire s |}); [|done].
      apply keeps_update; [done|]. by intros i.
    + apply (discreet_when_authenticated ws); [done..|].
      exists (set_is_authenticated true info). split; [|done].
      simpl. apply lookup_insert_eq.
  - erewrite run_bind_raise; [apply discreet_refl|].
    unfold update_connection. erewrite run_bind_raise; [done|].
    unfold connection. rewrite run_bind. simpl. by rewrite Hget.
Qed.

(** A loop over the snapshot whose body concerns the entry it is given and
    does nothing for an entry that is not authenticated. *)
Lemma modest_snapshot_loop (body : WebSocket * ConnectionInfo → M unit) :
  (∀ ws info, is_authenticated info = true →
     local_to ws (body (ws, info)) ∧ keeping true (body (ws, info))) →
  (∀ ws info, is_authenticated info = false → body (ws, info) = mret tt) →
  modest (items ≫= λ snapshot, for_each snapshot body).
Proof.
  intros Hauth Hskip s. rewrite run_bind, run_items. simpl.
  assert (∀ (l : list (WebSocket * ConnectionInfo)) s1,
            (∀ ws info, (ws, info) ∈ l → is_authenticated info = true →
                        authenticated ws s1) →
            discreet s1 (for_each l body s1).2) as Hloop.
  { induction l as [|[ws info] l IH]; intros s1 Hsnap; [apply discreet_refl|].
    cbn [for_each]. rewrite run_bind.
    assert (discreet s1 (body (ws, info) s1).2) as Hbody.
    { destruct (is_authenticated info) eqn:Hflag.
      - destruct (Hauth ws info Hflag) as [Hlocal Hkeeping].
        apply (discreet_when_authenticated ws); [done..|].
        apply (Hsnap ws info); [apply list_elem_of_here|done].
      - rewrite (Hskip ws info Hflag). apply discreet_refl. }
    destruct (body (ws, info) s1) as [[e|[]] s2]; [done|]. simpl in Hbody.
    eapply discreet_trans; [exact Hbody|]. apply IH.
    intros ws' info' Hin Hflag'.
    apply (keeps_strict_authenticated ws' s1 s2); [apply Hbody|].
    apply (Hsnap ws' info'); [by apply elem_of_cons; right|done]. }
  apply Hloop. intros ws info Hin Hflag.
  apply elem_of_map_to_list in Hin. by exists info.
Qed.

End ModestHandlers.

#[local] Hint Resolve modest_ret modest_raise modest_connections modest_get_default
  modest_auth_validate_token modest_update_connection modest_send_error
  flag_safe_client_version flag_safe_last_pong flag_safe_active_profile_id : modest.

Ltac modest_step :=
  lazymatch goal with
  | |- modest (mbind _ _) => apply modest_bind; [|intros ?]
  | |- modest (when _ _) => apply modest_when
  | |- modest (try_except _ _) => apply modest_try_except; [|intros ?]
  | |- modest (if ?b then _ else _) => destruct b
  | |- modest (match ?x with _ => _ end) => destruct x
  | |- modest _ => first [solve [auto with modest] | progress cbv beta iota]
  end.

Section ModestEntryPoints.

Variable env : Env.

Lemma local_try_pass ws (body : M unit) : local_to ws body → local_to ws (try_pass body).
Proof. intros Hbody. apply local_try_except; [done|]. intros e. apply local_ret. Qed.

Lemma local_assign_through ws f : local_to ws (assign_through ws f).
Proof.
  intros s. split; simpl.
  - intros ws' Hne. by apply lookup_alter_ne.
  - exists []. split; [by rewrite app_nil_r|constructor].
Qed.

Lemma modest_handle_button_pressed ws payload :
  modest (_handle_button_pressed env ws payload).
Proof.
  unfold _handle_button_pressed. apply modest_gate.
  - apply modest_send_error.
  - pose proof (local_send_error env ws). local_auto.
  - keeping_auto; apply keeping_send_json.
Qed.

Lemma modest_handle_get_buttons ws : modest (_handle_get_buttons env ws).
Proof.
  unfold _handle_get_buttons. apply modest_gate.
  - apply modest_send_error.
  - apply local_send_buttons_list.
  - apply keeping_send_buttons_list.
Qed.

Lemma modest_handle_get_profiles ws : modest (_handle_get_profiles env ws).
Proof.
  unfold _handle_get_profiles. apply modest_gate.
  - apply modest_send_error.
  - apply local_send_json.
  - apply keeping_send_json.
Qed.

Lemma modest_handle_switch_profile ws payload :
  modest (_handle_switch_profile env ws payload).
Proof.
  unfold _handle_switch_profile. apply modest_gate.
  - apply modest_send_error.
  - pose proof (local_send_error env ws). pose proof (local_send_buttons_list env ws).
    local_auto.
  - pose proof (keeping_send_buttons_list true env ws).
    keeping_auto; first [done | apply keeping_send_json].
Qed.

Lemma modest_handle_pong ws : modest (_handle_pong env ws).
Proof. unfold _handle_pong. repeat modest_step. Qed.

Lemma modest_handle_hello ws payload : modest (_handle_hello env ws payload).
Proof.
  unfold _handle_hello.
  apply modest_bind; [auto with modest|intros client_version].
  apply modest_bind; [auto with modest|intros token].
  apply modest_bind; [auto with modest|intros m].
  apply modest_bind; [apply modest_when; auto with modest|intros _].
  apply modest_bind; [auto with modest|intros valid].
  destruct valid.
  - apply modest_after_login.
    + pose proof (local_send_buttons_list env ws).
      pose proof (local_send_profiles_list env ws). local_auto.
    + pose proof (keeping_send_buttons_list true env ws).
      keeping_auto; first [done | apply keeping_send_json].
  - apply modest_send_harmless. exists AUTH_REQUIRED. split; [|done].
    rewrite !elem_of_cons. auto.
Qed.

Lemma modest_handle_message ws data : modest (handle_message env ws data).
Proof.
  pose proof modest_handle_hello. pose proof modest_handle_button_pressed.
  pose proof modest_handle_get_buttons. pose proof modest_handle_get_profiles.
  pose proof modest_handle_switch_profile. pose proof modest_handle_pong.
  unfold handle_message, dispatch. repeat modest_step.
Qed.

Lemma modest_broadcast_buttons_update profile_id :
  modest (broadcast_buttons_update env profile_id).
Proof.
  unfold broadcast_buttons_update. apply modest_bind; [intros s; apply discreet_refl|].
  intros [|]; [apply modest_ret|]. apply modest_snapshot_loop.
  - intros ws info Hflag. rewrite Hflag. cbn [negb]. split.
    + destruct (negb _); [apply local_ret|]. apply local_try_pass, local_send_json.
    + destruct (negb _); [apply keeping_ret|]. keeping_auto; apply keeping_send_json.
  - intros ws info Hflag. by rewrite Hflag.
Qed.

Lemma modest_broadcast_profiles_update : modest (broadcast_profiles_update env).
Proof.
  unfold broadcast_profiles_update. apply modest_bind; [intros s; apply discreet_refl|].
  intros [|]; [apply modest_ret|]. apply modest_snapshot_loop.
  - intros ws info Hflag. rewrite Hflag. split.
    + apply local_try_pass, local_send_json.
    + keeping_auto; apply keeping_send_json.
  - intros ws info Hflag. by rewrite Hflag.
Qed.

Lemma modest_broadcast_stats stats : modest (_broadcast_stats env stats).
Proof.
  unfold _broadcast_stats. apply modest_bind; [intros s; apply discreet_refl|].
  intros [|]; [apply modest_ret|]. apply modest_snapshot_loop.
  - intros ws info Hflag. rewrite Hflag. split.
    + apply local_try_pass, local_send_json.
    + keeping_auto; apply keeping_send_json.
  - intros ws info Hflag. by rewrite Hflag.
Qed.

Lemma modest_broadcast_profile_switch profile_id :
  modest (broadcast_profile_switch env profile_id).
Proof.
  unfold broadcast_profile_switch. apply modest_bind; [intros s; apply discreet_refl|].
  intros [|]; [apply modest_ret|].
  destruct (profile_get_by_id env (JStr profile_id)); [|apply modest_ret].
  apply modest_snapshot_loop.
  - intros ws info Hflag. rewrite Hflag. split.
    + apply local_bind; [apply local_assign_through|]. intros _.
      apply local_try_pass, local_bind; [apply local_send_json|].
      intros _. apply local_send_json.
    + keeping_auto; first [apply keeping_send_json | apply keeping_assign_through;
                           apply flag_safe_active_profile_id].
  - intros ws info Hflag. by rewrite Hflag.
Qed.

Lemma harmless_ping_frame : harmless ping_frame.
Proof. exists PING. split; [|done]. rewrite !elem_of_cons. auto. Qed.

Lemma pings_only (l : list (WebSocket * ConnectionInfo)) :
  Forall (λ frame : WebSocket * json, harmless frame.2)
    (concat ((λ entry, (λ m, (entry.1, m)) <$> accepted env entry.1 [ping_frame]) <$> l)).
Proof.
  induction l as [|entry l IH]; [constructor|].
  rewrite fmap_cons. cbn [concat]. apply Forall_app. split; [|done].
  simpl. destruct (send_ok env entry.1 ping_frame); [|constructor].
  constructor; [apply harmless_ping_frame|constructor].
Qed.

(** X22. Whatever entry point runs, in whatever state: every frame it
    sends that is not an error, an [AUTH_REQUIRED] or a [PING] goes to a
    connection that is registered and authenticated when the entry point
    ends. A connection that is not authenticated is never sent profiles,
    buttons, action results, statistics or a welcome. *)
Theorem data_only_to_authenticated o s :
  let s' := (run env o s).2 in
  ∃ new, wire s' = wire s ++ new ∧
    ∀ ws m, (ws, m) ∈ new → harmless m ∨ authenticated ws s'.
Proof.
  assert (∀ c : M unit, modest c →
            ∃ new, wire (c s).2 = wire s ++ new ∧
              ∀ ws m, (ws, m) ∈ new → harmless m ∨ authenticated ws (c s).2) as Hmodest.
  { intros c Hc. destruct (Hc s) as [_ (new & Hwire & Hok)].
    exists new. split; [done|]. intros ws m Hin.
    rewrite Forall_forall in Hok. apply (Hok (ws, m) Hin). }
  destruct o; simpl.
  - exists []. split; [|by intros ws0 m Hin; apply elem_of_nil in Hin].
    unfold connect. rewrite run_bind.
    destruct (accept_ok env ws); simpl; by rewrite app_nil_r.
  - exists []. split; [|by intros ws0 m Hin; apply elem_of_nil in Hin].
    rewrite run_disconnect. simpl. by rewrite app_nil_r.
  - apply Hmodest, modest_handle_message.
  - apply Hmodest, modest_broadcast_buttons_update.
  - apply Hmodest, modest_broadcast_profiles_update.
  - apply Hmodest, modest_broadcast_profile_switch.
  - apply Hmodest, modest_broadcast_stats.
  - rewrite run_send_ping_to_all. simpl. eexists. split; [apply sweep_effect_wire|].
    intros ws m Hin. left.
    pose proof (pings_only (map_to_list (_connections s))) as Hpings.
    rewrite Forall_forall in Hpings. apply (Hpings (ws, m) Hin).
  - exists []. split; [|by intros ws0 m Hin; apply elem_of_nil in Hin].
    by rewrite cleanup_stale_connections_silent, app_nil_r.
Qed.

End ModestEntryPoints.

(** * Properties of action execution *)

Section ActionExecution.

Import Executors ExecuteActionUseCase.

(** X23. The registry maps an action type to an executor exactly when that
    executor lists the type among its supported actions; no type is listed
    by two executors, and the only types without an executor are the three
    display-only ones. *)
Theorem registry_matches_supported_actions action_type :
  (∀ executor,
     create_executor_registry action_type = Some executor ↔
     action_type ∈ supported_actions executor) ∧
  (create_executor_registry action_type = None ↔ action_type ∈ display_only).
Proof.
  split.
  - intros executor. destruct action_type, executor; vm_compute; split; intros H;
      first [ done
            | discriminate H
            | by repeat (first [apply list_elem_of_here | apply list_elem_of_further])
            | exfalso;
              repeat match goal with
                     | H : list_elem_of _ _ |- _ => inversion_clear H
                     | H : _ ∈ _ |- _ => inversion_clear H
                     end ].
  - destruct action_type; vm_compute; split; intros H;
      first [ done
            | discriminate H
            | by repeat (first [apply list_elem_of_here | apply list_elem_of_further])
            | exfalso;
              repeat match goal with
                     | H : list_elem_of _ _ |- _ => inversion_clear H
                     | H : _ ∈ _ |- _ => inversion_clear H
                     end ].
Qed.

(** X24. Executing a button never raises and always yields a result for
    that very button: a dict with its id, a status that is "success" or
    "error", and a message, whatever the payload holds and whatever the
    operating system does. *)
Theorem execute_result_shape os button :
  ∃ status message,
    execute os button =
      JObj [("buttonId", JStr (Button.id button));
            ("status", JStr status); ("message", JStr message)] ∧
    (status = "success" ∨ status = "error").
Proof.
  destruct button as [id label icon action_type payload background icon_color].
  unfold execute. simpl.
  destruct action_type; simpl; unfold with_key;
    repeat (case_match; simplify_eq/=); eauto.
Qed.

Lemma display_only_unregistered action_type :
  action_type ∈ display_only → create_executor_registry action_type = None.
Proof.
  intros Hdisplay. destruct action_type; first [ done | exfalso;
    repeat match goal with
           | H : list_elem_of _ _ |- _ => inversion_clear H
           | H : _ ∈ _ |- _ => inversion_clear H
           end ].
Qed.

(** X25. A display-only button (CPU, RAM or GPU reading) cannot be
    executed: the result is the error "No executor found for action type",
    and the operating system is not involved. *)
Theorem display_only_button_is_refused os button :
  Button.action_type button ∈ display_only →
  execute os button =
    JObj [("buttonId", JStr (Button.id button));
          ("status", JStr "error");
          ("message", JStr ("No executor found for action type: "
                            ++ action_value (Button.action_type button)))].
Proof.
  intros Hdisplay. unfold execute.
  by rewrite (display_only_unregistered _ Hdisplay).
Qed.

(** X26. A button that launches, opens or presses something named in its
    payload, and whose payload is absent, empty or a dict without that
    name, yields the error "Missing '<key>' in payload"; the operating
    system is not involved. *)
Theorem missing_payload_key os button key :
  required_key (Button.action_type button) = Some key →
  truthy (Button.action_payload button) = false ∨
  (∃ fields, Button.action_payload button = JObj fields ∧
             dict_lookup key fields = None) →
  execute os button =
    JObj [("buttonId", JStr (Button.id button));
          ("status", JStr "error");
          ("message", JStr ("Missing '" ++ key ++ "' in payload"))].
Proof.
  destruct button as [id label icon action_type payload background icon_color].
  simpl. intros Hkey Hmissing. unfold execute. simpl.
  destruct action_type; try discriminate Hkey; injection Hkey as <-; simpl;
    unfold with_key;
    (destruct Hmissing as [Hfalsy|(fields & -> & Hnone)];
     [ by rewrite Hfalsy
     | destruct fields as [|field fields]; [done|];
       cbn [truthy negb contains]; rewrite Hnone;
       rewrite bool_decide_eq_false_2; [done|]; by intros [? ?] ]).
Qed.

(** X27. An [OPEN_URL] button reports success exactly when its payload is
    a dict with a "url" entry and opening that URL did not raise. *)
Theorem open_url_succeeds_iff os button :
  Button.action_type button = OPEN_URL →
  (dict_lookup "status"
     match execute os button with JObj fields => fields | _ => [] end
   = Some (JStr "success")) ↔
  ∃ fields url,
    Button.action_payload button = JObj fields ∧
    dict_lookup "url" fields = Some url ∧
    open_url os url = None.
Proof.
  destruct button as [id label icon action_type payload background icon_color].
  simpl. intros ->. unfold execute. simpl. unfold with_key. split.
  - destruct (truthy payload); simpl; [|discriminate].
    destruct payload as [| | |x|items|fields]; simpl; try discriminate.
    + case_bool_decide; simpl; discriminate.
    + destruct (existsb _ items); simpl; discriminate.
    + case_bool_decide as Hin; simpl; [|discriminate].
      destruct (dict_lookup "url" fields) as [url|] eqn:Hurl; simpl; [|discriminate].
      destruct (open_url os url) eqn:Hopen; simpl; [discriminate|].
      intros _. by exists fields, url.
  - intros (fields & url & -> & Hurl & Hopen).
    assert (truthy (JObj fields) = true) as ->.
    { by destruct fields. }
    simpl. rewrite bool_decide_eq_true_2 by by rewrite Hurl.
    by rewrite Hurl, Hopen.
Qed.

End ActionExecution.

Lemma display_only_button_is_refused_witness :
  ExecuteActionUseCase.execute ExecuteActionUseCase.sample_os
    (Button.mk "cpu" "CPU" "cpu.svg" SYSTEM_CPU JNull None None) =
    JObj [("buttonId", JStr "cpu"); ("status", JStr "error");
          ("message", JStr "No executor found for action type: SYSTEM_CPU")].
Proof.
  apply (display_only_button_is_refused
           ExecuteActionUseCase.sample_os
           (Button.mk "cpu" "CPU" "cpu.svg" SYSTEM_CPU JNull None None)).
  apply list_elem_of_here.
Defined.

Lemma missing_payload_key_witness :
  ExecuteActionUseCase.execute ExecuteActionUseCase.sample_os
    (ExecuteActionUseCase.url_button (JObj [("href", JStr "https://example.org")])) =
    JObj [("buttonId", JStr "docs"); ("status", JStr "error");
          ("message", JStr "Missing 'url' in payload")].
Proof.
  apply (missing_payload_key ExecuteActionUseCase.sample_os
           (ExecuteActionUseCase.url_button (JObj [("href", JStr "https://example.org")]))
           "url").
  - reflexivity.
  - right. eexists. split; reflexivity.
Defined.

Lemma open_url_succeeds_iff_witness :
  (dict_lookup "status"
     match ExecuteActionUseCase.execute ExecuteActionUseCase.sample_os
             (ExecuteActionUseCase.url_button (JObj [("url", JStr "https://example.org")]))
     with JObj fields => fields | _ => [] end
   = Some (JStr "success")) ↔
  ∃ fields url,
    JObj [("url", JStr "https://example.org")] = JObj fields ∧
    dict_lookup "url" fields = Some url ∧
    Executors.open_url ExecuteActionUseCase.sample_os url = None.
Proof.
  apply (open_url_succeeds_iff ExecuteActionUseCase.sample_os
           (ExecuteActionUseCase.url_button (JObj [("url", JStr "https://example.org")]))).
  reflexivity.
Defined.

(** * Properties of the routes *)

Section RouteProperties.

Import Auth.

(** X28. The QR route always answers with the token drawn and the TTL
    it advertises (the default TTL converts to a double, so the issue
    never raises), and that TTL is the one that applies: the token is
    exchanged for a session token through the exchange route unless the
    clock is past the double-precision sum of the issue time and
    [ttlSeconds], and refused with 401 otherwise. *)
Theorem advertised_ttl_applies now0 fresh now1 session s :
  token_hex_16 session →
  let issued := Routes.get_qr_token now0 fresh s in
  let exchanged := Routes.exchange_qr_token now1 session fresh issued.2 in
  let expiry := round_double (Qred (Qplus now0 (inject_Z DEFAULT_QR_TTL_SECONDS))) in
  issued.1 = Routes.Ok (JObj [("qrToken", JStr fresh);
                               ("ttlSeconds", JNum DEFAULT_QR_TTL_SECONDS)]) ∧
  exchanged.1 =
    if float_gt now1 expiry
    then Routes.HTTPException 401 "Invalid, expired, or already used QR token"
    else Routes.Ok (JObj [("sessionToken", JStr session)]).
Proof.
  intros Hsession issued exchanged expiry.
  pose proof (float_add_default_ttl now0) as Hsum. fold expiry in Hsum.
  destruct (issue_qr_token_stored now0 fresh None expiry s Hsum) as [Hret _].
  pose proof (exchange_after_issue now0 fresh None expiry now1 session s Hsum) as Hwindow.
  subst exchanged issued. unfold Routes.exchange_qr_token, Routes.get_qr_token.
  destruct (issue_qr_token now0 fresh None s) as [r s1]. simpl in Hret, Hwindow.
  subst r. simpl. split; [done|].
  destruct (exchange_qr_token now1 session fresh s1) as [result s2]. simpl in *.
  rewrite Hwindow. destruct (float_gt now1 expiry); simpl; [done|].
  by rewrite (eqb_empty_false session (token_hex_16_nonempty session Hsession)).
Qed.

Lemma advertised_ttl_applies_witness :
  let issued := Routes.get_qr_token 0 qr1 (init ∅) in
  let exchanged := Routes.exchange_qr_token 60 session1 qr1 issued.2 in
  let expiry := round_double (Qred (Qplus 0 (inject_Z DEFAULT_QR_TTL_SECONDS))) in
  issued.1 = Routes.Ok (JObj [("qrToken", JStr qr1);
                               ("ttlSeconds", JNum DEFAULT_QR_TTL_SECONDS)]) ∧
  exchanged.1 =
    if float_gt 60 expiry
    then Routes.HTTPException 401 "Invalid, expired, or already used QR token"
    else Routes.Ok (JObj [("sessionToken", JStr session1)]).
Proof.
  apply (advertised_ttl_applies 0 qr1 60 session1 (init ∅)). reflexivity.
Defined.

(** X29. The exchange route answers with a session token only when one was
    issued, and that token validates from then on; when it answers 401 the
    set of session tokens is as before. *)
Theorem exchange_route_outcome now fresh qr_token s :
  token_hex_16 fresh →
  let r := Routes.exchange_qr_token now fresh qr_token s in
  match r.1 with
  | Routes.Ok body =>
      body = JObj [("sessionToken", JStr fresh)] ∧
      (validate_token (Some fresh) r.2).1 = true ∧
      _qr_tokens r.2 !! qr_token = None
  | Routes.HTTPException status_code _ =>
      status_code = 401%Z ∧ _tokens r.2 = _tokens s ∧ token_store r.2 = token_store s
  end.
Proof.
  intros Hfresh. unfold Routes.exchange_qr_token, exchange_qr_token.
  destruct (_qr_tokens s !! qr_token) as [q|]; simpl; [|done].
  destruct (used q); simpl; [done|].
  destruct (past now q); simpl; [done|].
  rewrite (eqb_empty_false fresh (token_hex_16_nonempty fresh Hfresh)). simpl.
  split_and!; [done| |].
  - apply bool_decide_eq_true, elem_of_union. left. by apply elem_of_singleton.
  - rewrite delete_insert_eq. apply lookup_delete_eq.
Qed.

Lemma exchange_route_outcome_witness :
  let r := Routes.exchange_qr_token 1 session1 qr1
             (issue_qr_token 0 qr1 None (init ∅)).2 in
  match r.1 with
  | Routes.Ok body =>
      body = JObj [("sessionToken", JStr session1)] ∧
      (validate_token (Some session1) r.2).1 = true ∧
      _qr_tokens r.2 !! qr1 = None
  | Routes.HTTPException status_code _ =>
      status_code = 401%Z ∧
      _tokens r.2 = _tokens (issue_qr_token 0 qr1 None (init ∅)).2 ∧
      token_store r.2 = token_store (issue_qr_token 0 qr1 None (init ∅)).2
  end.
Proof.
  apply (exchange_route_outcome 1 session1 qr1 (issue_qr_token 0 qr1 None (init ∅)).2).
  reflexivity.
Defined.

End RouteProperties.

(** X30. The switch route never raises. Either it answers 404, and then
    nothing has changed and nothing was sent, or it answers "switched", and
    then every authenticated connection is on the requested profile and
    every other entry is as before. *)
Theorem switch_route_outcome env profile_id s :
  let r := Routes.switch_profile env profile_id s in
  (r = (inr (Routes.HTTPException 404 "Profile not found"), s) ∧
   profile_get_by_id env (JStr profile_id) = None) ∨
  (r.1 = inr (Routes.Ok (JObj [("status", JStr "switched");
                               ("profileId", JStr profile_id)])) ∧
   _connections r.2 =
     pushed is_authenticated (set_active_profile_id (JStr profile_id))
       <$> _connections s).
Proof.
  unfold Routes.switch_profile.
  destruct (profile_get_by_id env (JStr profile_id)) as [p|] eqn:Hknown.
  - right.
    rewrite run_bind, (run_broadcast_profile_switch env profile_id p s Hknown).
    simpl. split; [done|]. apply push_snapshot_connections.
  - left. by split.
Qed.
